(** * AI Wiki Quiz Generator: the fallback quiz generator, the LLM
      orchestration and the Wikipedia scraper's checks

    A shallow embedding of [backend/llm_quiz_generator.py] and of
    [is_wikipedia_url] and [scrape_wikipedia] from [backend/scraper.py],
    with the properties the specification states about them.

    Conventions of the embedding.
    - A Python [str] is a list of Unicode code points: [len] is the length
      of the list and [s[:n]] its first [n] elements.  The literals of the
      source are ASCII and written [py "..."].  Python's character tables
      ([isspace], [isupper], [islower], [isnumeric], [capitalize]) are
      written out for ASCII; beyond ASCII they are the parameter [unicode],
      so every statement holds whatever the tables say about the other
      characters.
    - The [random] module is a tape of naturals read from left to right:
      [randbelow n] is the next number modulo [n].  Statements hold for
      every tape; those that say the generator returns assume a fair one.
    - The iteration order of a Python [set] is not specified and changes
      from one process to the next: [list(words)] is a parameter
      [list_of_set], any enumeration of the set.
    - The [while] loop of the generator takes a fuel, the bound on the
      iterations of one run of the loop; running out of it is the outcome
      [Timeout], an exception is [Raise].
    - The libraries are parameters: [urlparse] and [json.loads] return a
      value or raise an exception of any class, and what pydantic does with
      a value that is not of the declared type (coerce it or refuse it) is
      the parameter [pydantic].

    The definitions come first: the embedding of the source, a model of
    [urlparse] and sample inputs for the examples, and the vocabulary of the
    statements.  The proofs follow. *)

From Stdlib Require Import Ascii String.
From stdpp Require Import base strings list gmap pretty.

(** ** Python strings *)

(** A [str]: its code points, in order *)
Abbreviation str := (list N).

(** An ASCII literal as a [str] *)
Definition py (s : string) : str := N_of_ascii <$> list_ascii_of_string s.

(** Python's character tables beyond ASCII.  [upper_hi] holds of the
    uppercase and the titlecase characters, which [istitle] treats alike;
    [capitalize_hi] is [str.capitalize] on a string that is not all ASCII
    (its case mappings can change the length of the string and depend on
    the neighbours of a character). *)
Record unicode := {
  space_hi : N → bool;
  upper_hi : N → bool;
  lower_hi : N → bool;
  numeric_hi : N → bool;
  capitalize_hi : str → str;
}.

Module PyStr.

Definition is_ascii (c : N) : bool := (c <? 128)%N.

Definition between (lo hi c : N) : bool := (lo <=? c)%N && (c <=? hi)%N.

(** [c.isspace()]; in ASCII: TAB, LF, VT, FF, CR, the four separators FS,
    GS, RS, US and the space. *)
Definition is_space (U : unicode) (c : N) : bool :=
  if is_ascii c then between 9 13 c || between 28 32 c else space_hi U c.

(** [c.isupper() or c.istitle()] *)
Definition is_upper (U : unicode) (c : N) : bool :=
  if is_ascii c then between 65 90 c else upper_hi U c.

(** [c.islower()] *)
Definition is_lower (U : unicode) (c : N) : bool :=
  if is_ascii c then between 97 122 c else lower_hi U c.

Definition is_cased (U : unicode) (c : N) : bool := is_upper U c || is_lower U c.

(** [c.isnumeric()] *)
Definition is_numeric (U : unicode) (c : N) : bool :=
  if is_ascii c then between 48 57 c else numeric_hi U c.

Definition to_upper (c : N) : N := if between 97 122 c then (c - 32)%N else c.

Definition to_lower (c : N) : N := if between 65 90 c then (c + 32)%N else c.

(** Python truthiness of a [str]. *)
Definition truthy (s : str) : bool :=
  match s with [] => false | _ => true end.

(** [a or b] on strings. *)
Definition or_else (a b : str) : str := if truthy a then a else b.

(** [s[:n]] *)
Definition slice_to (n : nat) (s : str) : str := take n s.

Fixpoint lstrip_by (p : N → bool) (s : str) : str :=
  match s with
  | [] => []
  | c :: s' => if p c then lstrip_by p s' else s
  end.

Fixpoint rstrip_by (p : N → bool) (s : str) : str :=
  match s with
  | [] => []
  | c :: s' =>
      let r := rstrip_by p s' in
      if negb (truthy r) && p c then [] else c :: r
  end.

Definition strip_by (p : N → bool) (s : str) : str :=
  rstrip_by p (lstrip_by p s).

(** [s.strip()], [s.rstrip()] and [s.strip(chars)] *)
Definition strip (U : unicode) : str → str := strip_by (is_space U).
Definition rstrip (U : unicode) : str → str := rstrip_by (is_space U).
Definition strip_chars (chars : str) : str → str :=
  strip_by (λ c, bool_decide (c ∈ chars)).

(** [s.split(sep)] for a one-character separator: every occurrence
    cuts, empty pieces are kept. *)
Fixpoint split_on (sep : N) (s : str) : list str :=
  match s with
  | [] => [[]]
  | c :: s' =>
      if decide (c = sep) then [] :: split_on sep s'
      else match split_on sep s' with
           | p :: ps => (c :: p) :: ps
           | [] => [[c]]
           end
  end.

(** [s.split()]: the maximal runs of characters that are not white
    space. *)
Fixpoint split_by (p : N → bool) (s : str) : list str :=
  match s with
  | [] => []
  | c :: s' =>
      if p c then split_by p s'
      else match s' with
           | [] => [[c]]
           | c' :: _ =>
               if p c' then [c] :: split_by p s'
               else match split_by p s' with
                    | t :: ts => (c :: t) :: ts
                    | [] => [[c]]
                    end
           end
  end.

Definition split_ws (U : unicode) : str → list str := split_by (is_space U).

(** [s.capitalize()] *)
Definition capitalize (U : unicode) (s : str) : str :=
  if forallb is_ascii s then
    match s with
    | [] => []
    | c :: s' => to_upper c :: (to_lower <$> s')
    end
  else capitalize_hi U s.

(** [s.isnumeric()] *)
Definition isnumeric (U : unicode) (s : str) : bool :=
  truthy s && forallb (is_numeric U) s.

(** [s.istitle()]: uppercase characters only after uncased ones, lowercase
    characters only after cased ones, and at least one cased character. *)
Fixpoint istitle_go (U : unicode) (previous_is_cased cased : bool) (s : str)
  : bool :=
  match s with
  | [] => cased
  | c :: s' =>
      if is_upper U c then
        if previous_is_cased then false else istitle_go U true true s'
      else if is_lower U c then
        if previous_is_cased then istitle_go U true true s' else false
      else istitle_go U false cased s'
  end.
Definition istitle (U : unicode) : str → bool := istitle_go U false false.

(** [sub in s] *)
Fixpoint starts_with (sub s : str) : bool :=
  match sub, s with
  | [], _ => true
  | a :: sub', b :: s' => if decide (a = b) then starts_with sub' s' else false
  | _ :: _, [] => false
  end.

Fixpoint contains (sub s : str) : bool :=
  starts_with sub s ||
  match s with
  | [] => false
  | _ :: s' => contains sub s'
  end.

End PyStr.

Import PyStr.

(** ** Outcomes and the random tape *)

(** The exception classes that occur.  A handler for one class does not
    catch another: [JSONDecodeError] is what [json.loads] raises for text
    that is not JSON, [ValueError] stands for a [ValueError] that is not
    a [JSONDecodeError] nor a [ValidationError]. *)
Inductive exn :=
  | IndexError
  | ValueError
  | JSONDecodeError
  | ValidationError
  | RecursionError
  | TypeError.

Inductive outcome (A : Type) :=
  | Ret (a : A)
  | Raise (e : exn)
  | Timeout.
Arguments Ret {A} a.
Arguments Raise {A} e.
Arguments Timeout {A}.

(** The state of the generator behind [random]: the numbers it will produce,
    in order, and how many of them have been drawn. *)
Record rng := { tape : nat → nat; pos : nat }.

Definition peek (r : rng) : nat := tape r (pos r).
Definition advance (k : nat) (r : rng) : rng :=
  {| tape := tape r; pos := pos r + k |}.

Definition Rand (A : Type) : Type := rng → outcome (A * rng).

Definition ret {A} (a : A) : Rand A := λ t, Ret (a, t).
Definition raise {A} (e : exn) : Rand A := λ _, Raise e.
Definition timeout {A} : Rand A := λ _, Timeout.
Definition bind {A B} (m : Rand A) (k : A → Rand B) : Rand B :=
  λ t, match m t with
       | Ret (a, t') => k a t'
       | Raise e => Raise e
       | Timeout => Timeout
       end.

Notation "'let*' x ':=' m 'in' k" := (bind m (λ x, k))
  (at level 10, x name, m at level 100, k at level 200).

Module PyRandom.

(** [random._randbelow(n)] *)
Definition randbelow (n : nat) : Rand nat :=
  λ r, Ret (peek r `mod` n, advance 1 r).

(** [random.choice(seq)]: [seq[randbelow(len(seq))]], [IndexError] on an
    empty sequence. *)
Definition choice {A} (seq : list A) : Rand A :=
  match seq with
  | [] => raise IndexError
  | _ =>
      let* i := randbelow (length seq) in
      match seq !! i with
      | Some x => ret x
      | None => raise IndexError
      end
  end.

(** [random.randint(a, b)] *)
Definition randint (a b : nat) : Rand nat :=
  let* r := randbelow (b - a + 1) in ret (a + r).

(** [x[i], x[j] = x[j], x[i]] *)
Definition swap {A} (x : list A) (i j : nat) : list A :=
  match x !! i, x !! j with
  | Some a, Some b => <[i:=b]> (<[j:=a]> x)
  | _, _ => x
  end.

(** [random.shuffle(x)]: for [i] from [len(x) - 1] down to [1], exchange
    [x[i]] with [x[randbelow(i + 1)]]. *)
Fixpoint shuffle_from {A} (i : nat) (x : list A) : Rand (list A) :=
  match i with
  | 0 => ret x
  | S i' => let* j := randbelow (S i) in shuffle_from i' (swap x i j)
  end.

Definition shuffle {A} (x : list A) : Rand (list A) :=
  shuffle_from (length x - 1) x.

End PyRandom.

Import PyRandom.

(** ** The quiz data model *)

Record Question := {
  question : str;
  options : list str;
  answer : str;
  explanation : str;
  difficulty : str;
}.

(** The dictionary both generators return.  Its keys [title] and [summary]
    are the fields [quiz_title] and [quiz_summary] (the generator's
    parameters have the plain names); they are [Optional[str]] in
    [QuizModel], and the fallback always sets them. *)
Record Quiz := {
  quiz_title : option str;
  quiz_summary : option str;
  quiz : list Question;
  related_topics : list str;
}.

(** ** The fallback generator, [_fallback_generate_from_text] *)

(** The characters stripped from a token: comma, full stop, the two
    parentheses and the double quote *)
Definition punctuation : str := py ",.()" ++ [34%N].

Definition full_stop : N := 46%N.

(** [lst[i]] for a non-negative index *)
Definition index {A} (lst : list A) (i : nat) : Rand A :=
  match lst !! i with
  | Some x => ret x
  | None => raise IndexError
  end.

(** [for x in xs: ys.append(body(x))] *)
Fixpoint for_append {A B} (body : A → Rand B) (xs : list A) (ys : list B)
  : Rand (list B) :=
  match xs with
  | [] => ret ys
  | x :: xs' => let* y := body x in for_append body xs' (ys ++ [y])
  end.

Section Fallback.

(** Python's character tables beyond ASCII *)
Variable U : unicode.

(** [list(words)] for a set [words] *)
Variable list_of_set : gset str → list str.

(** Lines 55-57 *)
Definition split_sentences (clean_text : str) : list str :=
  strip U <$> filter (λ s, truthy (strip U s)) (split_on full_stop clean_text).

Definition sentences_of (title summary clean_text : str) : list str :=
  match split_sentences clean_text with
  | [] => if truthy summary then [summary] else [title]
  | sentences => sentences
  end.

(** Line 59 *)
Definition num_q_of (sentences : list str) : nat :=
  7 `min` (5 `max` (length sentences `div` 3)).

(** Lines 63-68: the set of candidate words *)
Definition add_word (words : gset str) (w : str) : gset str :=
  let w := capitalize U (strip_chars punctuation w) in
  if (3 <? length w) && negb (isnumeric U w) then {[w]} ∪ words else words.

Definition word_set (sentences : list str) : gset str :=
  foldl (λ words s, foldl add_word words (split_ws U s)) ∅ (take 20 sentences).

(** Line 69 *)
Definition word_pool (sentences : list str) : list str :=
  take 50 (list_of_set (word_set sentences)).

(** Lines 73-75 *)
Definition question_text (title summary sentence : str) : str :=
  let q_text := rstrip U (slice_to 200 sentence) in
  if length q_text <? 10 then slice_to 200 (or_else summary title)
  else q_text.

(** Lines 77-78 *)
Definition candidates_of (sentence : str) : list str :=
  let tokens := strip_chars punctuation <$> split_ws U sentence in
  filter (λ t, istitle U t && (3 <? length t)) tokens.

(** Lines 79-83 *)
Definition pick_correct (title sentence : str) : Rand str :=
  match candidates_of sentence with
  | [] =>
      match split_ws U sentence with
      | [] => ret title
      | parts => index parts 0
      end
  | candidates => choice candidates
  end.

(** Line 88 *)
Definition draw_pick (words : list str) : Rand str :=
  match words with
  | [] => let* n := randint 1 99 in ret (py "Option" ++ py (pretty n))
  | _ => choice words
  end.

(** Lines 87-90: the [while] loop, [fuel] bounding its iterations *)
Fixpoint build_options (fuel : nat) (words options : list str)
  : Rand (list str) :=
  if length options <? 4 then
    match fuel with
    | 0 => timeout
    | S fuel' =>
        let* pick := draw_pick words in
        if decide (pick ∈ options) then build_options fuel' words options
        else build_options fuel' words (options ++ [pick])
    end
  else ret options.

(** Line 93 *)
Definition difficulty_levels : list str :=
  replicate 3 (py "easy") ++ replicate 2 (py "medium") ++ [py "hard"].

(** Line 94 *)
Definition explanation_text (sentence : str) : str :=
  py "Based on the article text: '" ++ strip U (slice_to 120 sentence)
  ++ py "'.".

(** Lines 72-103: the body of the question loop *)
Definition make_question (fuel : nat) (title summary : str)
    (sentences words : list str) (i : nat) : Rand Question :=
  let idx := if i <? length sentences then i else 0 in
  let* sentence := index sentences idx in
  let q_text := question_text title summary sentence in
  let* correct := pick_correct title sentence in
  let* options := build_options fuel words [correct] in
  let* options := shuffle options in
  let* difficulty := choice difficulty_levels in
  ret {| question := q_text ++ py "?";
         options := options;
         answer := correct;
         explanation := explanation_text sentence;
         difficulty := difficulty |}.

(** Lines 106-112 *)
Definition add_section (related : list str) (s : str) : list str :=
  if truthy s && bool_decide (s ∉ related) then related ++ [s] else related.

Definition add_keyword (related : list str) (w : str) : list str :=
  if bool_decide (w ∉ related) && (length related <? 6) then related ++ [w]
  else related.

Definition related_of (sections words : list str) : list str :=
  foldl add_keyword (foldl add_section [] (take 5 sections)) (take 6 words).

Definition _fallback_generate_from_text (fuel : nat)
    (title summary clean_text : str) (sections : list str) : Rand Quiz :=
  let sentences := sentences_of title summary clean_text in
  let num_q := num_q_of sentences in
  let words := word_pool sentences in
  let* quiz := for_append (make_question fuel title summary sentences words)
                          (seq 0 num_q) [] in
  ret {| quiz_title := Some title;
         quiz_summary := Some summary;
         quiz := quiz;
         related_topics := related_of sections words |}.

End Fallback.

(** ** [is_wikipedia_url] (scraper.py, lines 6-11) *)

Inductive result (A : Type) :=
  | Ok (a : A)
  | Exc (e : exn).
Arguments Ok {A} a.
Arguments Exc {A} e.

(** [try: body except ...: handler] *)
Definition try_except {A} (body : result A) (handler : exn → result A) : result A :=
  match body with
  | Ok a => Ok a
  | Exc e => handler e
  end.

(** What [is_wikipedia_url] reads of [urllib.parse.ParseResult]. *)
Record ParseResult := {
  scheme : str;
  netloc : str;
  rest : str;
}.

(** The body of [is_wikipedia_url], for any [urlparse]: the parser belongs
    to the standard library, it returns a [ParseResult] or raises. *)
Definition is_wikipedia_url (urlparse : str → result ParseResult)
    (url : str) : result bool :=
  try_except
    (match urlparse url with
     | Ok p => Ok (contains (py "wikipedia.org") p.(netloc))
     | Exc e => Exc e
     end)
    (λ _, Ok false).

(** ** JSON parsing and validation, [_parse_and_validate_json] *)

(** The values [json.loads] builds.  An object keeps its members in the
    order of the text; as in a [dict], the last member of a name wins.  A
    float is kept as the text [str] gives for it. *)
#[warnings="-register-all"]
Inductive json :=
  | JNull
  | JBool (b : bool)
  | JInt (n : Z)
  | JFloat (repr : str)
  | JStr (s : str)
  | JArr (items : list json)
  | JObj (members : list (str * json)).

Fixpoint dict_get (key : str) (members : list (str * json)) : option json :=
  match members with
  | [] => None
  | (k, v) :: members' =>
      match dict_get key members' with
      | Some v' => Some v'
      | None => if decide (k = key) then Some v else None
      end
  end.

(** What pydantic does where its versions differ.  [str_validator] is the
    validation of a value for a [str] field: the string, or [None] for an
    error (pydantic 1 turns a number into its text, pydantic 2 refuses it).
    [optional_default] tells whether a missing [Optional] field is [None]
    (pydantic 1) or an error (pydantic 2).  [as_dict_root] is what
    [parse_obj] makes of its argument before the fields are validated: the
    members of a dictionary, or the exception it raises ([ValidationError];
    pydantic 1 first tries [dict(obj)], and raises [TypeError] when that
    dictionary has a key that is not a string).  [as_dict_item] is the same
    for an item of [List[QuestionModel]], where every failure is a
    validation error. *)
Record pydantic := {
  str_validator : json → option str;
  optional_default : bool;
  as_dict_root : json → result (list (str * json));
  as_dict_item : json → option (list (str * json));
}.

(** Validation against the declared field types ([None] is a validation
    error).  A [List[...]] field takes a JSON array whose every item
    validates, an [Optional[str]] field [null] or what a [str] field takes;
    members the model does not declare are ignored. *)
Definition validate_list {A} (item : json → option A) (v : json) : option (list A) :=
  match v with JArr items => mapM item items | _ => None end.

Definition validate_optional_str (P : pydantic) (v : option json)
  : option (option str) :=
  match v with
  | None => if optional_default P then Some None else None
  | Some JNull => Some None
  | Some v => Some <$> str_validator P v
  end.

(** [QuestionModel] (lines 34-39) *)
Definition QuestionModel_validate (P : pydantic) (v : json) : option Question :=
  members ← as_dict_item P v;
  question ← dict_get (py "question") members ≫= str_validator P;
  options ← dict_get (py "options") members ≫= validate_list (str_validator P);
  answer ← dict_get (py "answer") members ≫= str_validator P;
  explanation ← dict_get (py "explanation") members ≫= str_validator P;
  difficulty ← dict_get (py "difficulty") members ≫= str_validator P;
  Some {| question := question; options := options; answer := answer;
          explanation := explanation; difficulty := difficulty |}.

(** The fields of [QuizModel] (lines 42-46) *)
Definition QuizModel_validate (P : pydantic) (members : list (str * json))
  : option Quiz :=
  title ← validate_optional_str P (dict_get (py "title") members);
  summary ← validate_optional_str P (dict_get (py "summary") members);
  quiz ← dict_get (py "quiz") members ≫= validate_list (QuestionModel_validate P);
  related_topics ← dict_get (py "related_topics") members
                     ≫= validate_list (str_validator P);
  Some {| quiz_title := title; quiz_summary := summary; quiz := quiz;
          related_topics := related_topics |}.

(** [QuizModel.parse_obj(payload)] followed by [.dict()] (lines 174-175) *)
Definition QuizModel_parse_obj (P : pydantic) (payload : json) : result Quiz :=
  match as_dict_root P payload with
  | Ok members =>
      match QuizModel_validate P members with
      | Some validated => Ok validated
      | None => Exc ValidationError
      end
  | Exc e => Exc e
  end.

(** [except (json.JSONDecodeError, ValidationError)] *)
Definition caught (e : exn) : bool :=
  match e with
  | JSONDecodeError | ValidationError => true
  | _ => false
  end.

(** Lines 169-177.  [json_loads] is the standard library's parser: the
    value of the text, or the exception it raises.  The two exceptions of
    the handler end in [None]; any other exception leaves the function. *)
Definition _parse_and_validate_json (json_loads : str → result json)
    (P : pydantic) (text : str) : result (option Quiz) :=
  try_except
    (match json_loads text with
     | Ok payload =>
         match QuizModel_parse_obj P payload with
         | Ok validated => Ok (Some validated)
         | Exc e => Exc e
         end
     | Exc e => Exc e
     end)
    (λ e, if caught e then Ok None else Exc e).

(** ** The orchestration, [generate_quiz] *)

(** What the process and the network hold for a call: the two environment
    variables, the reply of each provider to a prompt ([None] when the
    client library is missing, the call raises or the reply has no text),
    the JSON parser and the pydantic at hand. *)
Record World := {
  GEMINI_API_KEY : option str;
  OPENAI_API_KEY : option str;
  gemini_generate : str → option str;
  openai_chat : str → option str;
  json_loads : str → result json;
  validation : pydantic;
}.

(** The strategies, in the order in which a call is seen to try them. *)
Inductive attempt := Gemini | OpenAI | Fallback.

(** Truthiness of [os.getenv(name)] *)
Definition configured (key : option str) : bool :=
  match key with Some k => truthy k | None => false end.

(** Lines 122-146 and 149-166, with the client call as [gemini_generate]
    and [openai_chat] *)
Definition _call_gemini (w : World) (prompt : str) : option str :=
  if configured w.(GEMINI_API_KEY) then w.(gemini_generate) prompt else None.

Definition _call_openai (w : World) (prompt : str) : option str :=
  if configured w.(OPENAI_API_KEY) then w.(openai_chat) prompt else None.

(** [if text: parsed = _parse_and_validate_json(text); if parsed: ...]: the
    parsed quiz, a dictionary with four keys, is never falsy. *)
Definition usable_reply (w : World) (text : option str) : result (option Quiz) :=
  match text with
  | Some text =>
      if truthy text
      then _parse_and_validate_json w.(json_loads) w.(validation) text
      else Ok None
  | None => Ok None
  end.

Definition newline : str := [10%N].

Section GenerateQuiz.
Variable QUIZ_PROMPT_TEMPLATE : str.
Variable U : unicode.
Variable list_of_set : gset str → list str.

(** Line 189 *)
Definition prompt_of (title summary clean_text : str) : str :=
  QUIZ_PROMPT_TEMPLATE ++ newline ++ newline ++ py "ARTICLE_TITLE:" ++ newline
  ++ or_else title [] ++ newline ++ newline ++ py "ARTICLE_TEXT:" ++ newline
  ++ or_else clean_text (or_else summary []).

(** Lines 180-208.  The result comes with the list of the strategies that
    were tried, in order; an exception that leaves
    [_parse_and_validate_json] leaves [generate_quiz]. *)
Definition generate_quiz (w : World) (fuel : nat)
    (title summary clean_text : str) (sections : list str) (r : rng)
  : list attempt * outcome (Quiz * rng) :=
  let gemini_key := w.(GEMINI_API_KEY) in
  let openai_key := w.(OPENAI_API_KEY) in
  let prompt := prompt_of title summary clean_text in
  let '(tried1, parsed1) :=
    if configured gemini_key
    then ([Gemini], usable_reply w (_call_gemini w prompt))
    else ([], Ok None) in
  match parsed1 with
  | Exc e => (tried1, Raise e)
  | Ok (Some parsed) => (tried1, Ret (parsed, r))
  | Ok None =>
      let '(tried2, parsed2) :=
        if configured openai_key
        then ([OpenAI], usable_reply w (_call_openai w prompt))
        else ([], Ok None) in
      match parsed2 with
      | Exc e => (tried1 ++ tried2, Raise e)
      | Ok (Some parsed) => (tried1 ++ tried2, Ret (parsed, r))
      | Ok None =>
          (tried1 ++ tried2 ++ [Fallback],
           _fallback_generate_from_text U list_of_set fuel title summary
             clean_text sections r)
      end
  end.

End GenerateQuiz.

(** ** [scrape_wikipedia] (scraper.py, lines 14-63) *)

(** What lines 22-52 read off the page, taken as given (the request and
    the HTML parser are not modelled): the title of lines 28-29, the section
    headlines of lines 41-45, the text [p.get_text(strip=True)] of every
    paragraph of line 49 in document order, before the test of line 51, and
    the text of the response. *)
Record Page := {
  page_title : str;
  page_headlines : list str;
  page_p_texts : list str;
  page_html : str;
}.

(** The dictionary [scrape_wikipedia] returns, key by key. *)
Record Scraped := {
  scraped_title : str;
  scraped_summary : str;
  scraped_sections : list str;
  scraped_clean_text : str;
  scraped_raw_html : str;
}.

(** [sep.join(parts)] *)
Fixpoint join (sep : str) (parts : list str) : str :=
  match parts with
  | [] => []
  | [x] => x
  | x :: parts' => x ++ sep ++ join sep parts'
  end.

(** Lines 48-52: the paragraphs kept *)
Definition kept_paragraphs (p_texts : list str) : list str :=
  filter (λ text, truthy text) p_texts.

(** [fetch] stands for lines 22-45 and 49-50: the page of a URL, or the
    exception of the request or of the parser. *)
Definition scrape_wikipedia (urlparse : str → result ParseResult)
    (fetch : str → result Page) (url : str) : result Scraped :=
  match is_wikipedia_url urlparse url with
  | Exc e => Exc e
  | Ok false => Exc ValueError
  | Ok true =>
      match fetch url with
      | Exc e => Exc e
      | Ok page =>
          let paragraphs := kept_paragraphs page.(page_p_texts) in
          let clean_text := join (newline ++ newline) paragraphs in
          let summary := match paragraphs with p :: _ => p | [] => [] end in
          Ok {| scraped_title := page.(page_title);
                scraped_summary := summary;
                scraped_sections := page.(page_headlines);
                scraped_clean_text := clean_text;
                scraped_raw_html := page.(page_html) |}
      end
  end.

(** ** A model of [urlparse], and sample inputs *)

(** The pieces of the model of [urlparse] below *)
Definition is_alpha (c : N) : bool := between 65 90 c || between 97 122 c.

Definition is_scheme_char (c : N) : bool :=
  is_alpha c || between 48 57 c || bool_decide (c ∈ py "+-.").

(** [s.partition(c)]: the text before the first [c] and the text after it,
    [None] when there is no [c]. *)
Fixpoint cut_at (p : N → bool) (s : str) : option (str * str) :=
  match s with
  | [] => None
  | c :: s' =>
      if p c then Some ([], s')
      else match cut_at p s' with
           | Some (before, after) => Some (c :: before, after)
           | None => None
           end
  end.

Fixpoint take_until (p : N → bool) (s : str) : str * str :=
  match s with
  | [] => ([], [])
  | c :: s' =>
      if p c then ([], s)
      else let '(before, after) := take_until p s' in (c :: before, after)
  end.

Definition split_scheme (url : str) : str * str :=
  match cut_at (λ c, bool_decide (c = 58%N)) url with
  | Some (c0 :: before, after) =>
      if is_alpha c0 && forallb is_scheme_char before
      then (to_lower <$> (c0 :: before), after)
      else ([], url)
  | _ => ([], url)
  end.

(** A model of [urllib.parse.urlparse] for the examples, as far as the
    scheme and the network location go (after CPython's [urlsplit]):
    leading control characters and spaces are dropped, tabs and line breaks
    removed, a scheme is cut off at the first colon when the text before it
    is a letter followed by scheme characters, and the network location is
    what follows a leading double slash up to the first slash, question mark
    or hash; a square bracket without its partner in it raises
    [ValueError].  The model is for ASCII URLs that do not hold both
    brackets: CPython also checks that a bracketed host is an IP address and
    that a host beyond ASCII is stable under normalisation, and raises
    [ValueError] otherwise, which the model does not do. *)
Definition urlparse_model (url : str) : result ParseResult :=
  let url := lstrip_by (λ c, (c <=? 32)%N) url in
  let url := filter (λ c, c ∉ [9%N; 10%N; 13%N]) url in
  let '(scheme, url) := split_scheme url in
  match url with
  | 47%N :: 47%N :: after =>
      let '(netloc, rest) := take_until (λ c, bool_decide (c ∈ py "/?#")) after in
      if xorb (bool_decide (91%N ∈ netloc)) (bool_decide (93%N ∈ netloc))
      then Exc ValueError
      else Ok {| scheme := scheme; netloc := netloc; rest := rest |}
  | _ => Ok {| scheme := scheme; netloc := []; rest := url |}
  end.

(** Character tables for the examples: Python's on Latin-1 text (code
    points below 256), every other character taken as a symbol that is
    neither white space, nor cased, nor numeric.  The uppercase of the
    sharp s is two letters, those of the micro sign and of the y with
    diaeresis lie outside Latin-1. *)
Definition latin1_upper (c : N) : str :=
  if (c =? 223)%N then [83%N; 115%N]
  else if (c =? 181)%N then [924%N]
  else if (c =? 255)%N then [376%N]
  else if between 224 254 c && negb (c =? 247)%N then [(c - 32)%N]
  else [to_upper c].

Definition latin1_lower (c : N) : N :=
  if between 192 222 c && negb (c =? 215)%N then (c + 32)%N else to_lower c.

Definition latin1_capitalize (s : str) : str :=
  match s with
  | [] => []
  | c :: s' => latin1_upper c ++ (latin1_lower <$> s')
  end.

Definition latin1 : unicode :=
  {| space_hi := λ c, bool_decide (c ∈ [133%N; 160%N]);
     upper_hi := λ c, between 192 222 c && negb (c =? 215)%N;
     lower_hi := λ c, (between 223 255 c && negb (c =? 247)%N)
                      || bool_decide (c ∈ [170%N; 181%N; 186%N]);
     numeric_hi := λ c, bool_decide (c ∈ [178%N; 179%N; 185%N; 188%N; 189%N; 190%N]);
     capitalize_hi := latin1_capitalize |}.

(** A generator state for examples: the tape 0, 1, 2, ... *)
Definition rng0 : rng := {| tape := id; pos := 0 |}.

(** Another generator state: the tape 3, 10, 17, ... *)
Definition rng1 : rng := {| tape := λ n, 7 * n + 3; pos := 0 |}.

(** An enumeration of a set other than [elements]: in reverse. *)
Definition reversed (X : gset str) : list str := reverse (elements X).

(** Pydantic 2 on JSON values: nothing is coerced and a missing field is
    an error. *)
Definition pydantic_2 : pydantic :=
  {| str_validator := λ v, match v with JStr s => Some s | _ => None end;
     optional_default := false;
     as_dict_root := λ v, match v with
                          | JObj members => Ok members
                          | _ => Exc ValidationError
                          end;
     as_dict_item := λ v, match v with JObj members => Some members | _ => None end |}.

(** A pydantic that coerces as pydantic 1 does for a [str] field, taking
    [str(v)] of a number, and lets a missing [Optional] field be [None];
    on values that are not objects it is as above. *)
Definition pydantic_coercing : pydantic :=
  {| str_validator := λ v, match v with
                           | JStr s => Some s
                           | JInt n => Some (py (pretty n))
                           | JFloat repr => Some repr
                           | JBool b => Some (py (if b then "True" else "False"))
                           | _ => None
                           end;
     optional_default := true;
     as_dict_root := λ v, match v with
                          | JObj members => Ok members
                          | _ => Exc ValidationError
                          end;
     as_dict_item := λ v, match v with JObj members => Some members | _ => None end |}.

(** A reply that is not JSON. *)
Definition no_json : str := py "Sorry, no quiz today.".

(** A reply nested deeper than [json.loads] can follow: 100000 opening
    brackets. *)
Definition deep_text : str := replicate (N.to_nat 100000) 91%N.

(** [json.loads] on the two replies above: [JSONDecodeError] for the
    first, [RecursionError] for the second; any other text is taken as not
    being JSON. *)
Definition sample_loads (text : str) : result json :=
  if decide (text = deep_text) then Exc RecursionError else Exc JSONDecodeError.

(** A world in which only Gemini is configured and its reply is not JSON. *)
Definition sample_world : World :=
  {| GEMINI_API_KEY := Some (py "key");
     OPENAI_API_KEY := None;
     gemini_generate := λ _, Some no_json;
     openai_chat := λ _, None;
     json_loads := sample_loads;
     validation := pydantic_2 |}.

(** The same world with the deeply nested reply. *)
Definition deep_world : World :=
  {| GEMINI_API_KEY := Some (py "key");
     OPENAI_API_KEY := None;
     gemini_generate := λ _, Some deep_text;
     openai_chat := λ _, None;
     json_loads := sample_loads;
     validation := pydantic_2 |}.

(** A page with two paragraphs and an empty one between them. *)
Definition sample_page : Page :=
  {| page_title := py "Alan Turing";
     page_headlines := [py "Early life"; py "Career"];
     page_p_texts := [py "Alan Turing was a mathematician."; [];
                      py "He worked at Bletchley Park."];
     page_html := py "<html></html>" |}.

(** The text of the examples on the Einstein article. *)
Definition einstein_text : str :=
  py "Albert Einstein was a German-born theoretical physicist. He developed the theory of relativity (in 1905). Born in Ulm, he moved to Switzerland.".

(** A lowercase pangram *)
Definition pangram : str := py "the quick brown fox jumps over the lazy dog".

(** A sentence whose only capital is not an ASCII letter: the name Emile
    with an acute accent on the E, code point 201. *)
Definition emile : str := 201%N :: py "mile".

Definition emile_sentence : str := py "the " ++ emile ++ py " went home".

(** The five vowels with an acute accent, a space between them: nine
    characters. *)
Definition vowels : str :=
  [225%N; 32%N; 233%N; 32%N; 237%N; 32%N; 243%N; 32%N; 250%N].

(** A reply with a single question that has two equal options, an answer
    that is none of them and a difficulty outside the three levels. *)
Definition malformed_question : json :=
  JObj [(py "question", JStr (py "Q"));
        (py "options", JArr [JStr (py "a"); JStr (py "a")]);
        (py "answer", JStr (py "z")); (py "explanation", JStr (py "e"));
        (py "difficulty", JStr (py "extreme"))].

Definition malformed_payload : json :=
  JObj [(py "title", JNull); (py "summary", JStr (py "S"));
        (py "quiz", JArr [malformed_question]); (py "related_topics", JArr [])].

Definition malformed_quiz : Quiz :=
  {| quiz_title := None; quiz_summary := Some (py "S");
     quiz := [ {| question := py "Q"; options := [py "a"; py "a"];
                  answer := py "z"; explanation := py "e";
                  difficulty := py "extreme" |} ];
     related_topics := [] |}.

(** A reply whose title is a number. *)
Definition numbered_payload : json :=
  JObj [(py "title", JInt 5); (py "summary", JNull);
        (py "quiz", JArr []); (py "related_topics", JArr [])].

(** ** Vocabulary of the statements *)

(** The strings line 88 can produce: a word of the pool, or one of the 99
    synthetic names when the pool is empty. *)
Definition option_names : list str :=
  (λ n, py "Option" ++ py (pretty n)) <$> seq 1 99.

Definition picks (words : list str) : list str :=
  match words with [] => option_names | _ => words end.

(** The pick made [j] draws from now. *)
Definition pick_at (words : list str) (r : rng) (j : nat) : option str :=
  picks words !! (tape r (pos r + j) `mod` length (picks words)).

(** A tape is fair when every outcome of every bounded draw keeps turning
    up: whatever [k] and [v < k], some later number is [v] modulo [k]. *)
Definition fair (tp : nat → nat) : Prop :=
  ∀ k v n, v < k → ∃ m, n ≤ m ∧ tp m `mod` k = v.

(** What lines 72-102 establish about the question built for index [i]. *)
Definition source_sentence (sentences : list str) (i : nat) : option str :=
  sentences !! (if i <? length sentences then i else 0).

(** The answer is one of the candidates, or, without candidates, the first
    token of the sentence, or the title when the sentence has no token. *)
Definition correct_for (U : unicode) (title sentence answer : str) : Prop :=
  (candidates_of U sentence ≠ [] → answer ∈ candidates_of U sentence) ∧
  (candidates_of U sentence = [] →
   answer = default title (head (split_ws U sentence))).

Record question_for (U : unicode) (title summary sentence : str)
    (words : list str) (q : Question) : Prop := {
  qf_question : question q = question_text U title summary sentence ++ py "?";
  qf_explanation : explanation q = explanation_text U sentence;
  qf_answer : correct_for U title sentence (answer q);
  qf_four : length (options q) = 4;
  qf_distinct : NoDup (options q);
  qf_answer_in : answer q ∈ options q;
  qf_options : ∀ x, x ∈ options q → x = answer q ∨ x ∈ picks words;
  qf_difficulty : difficulty q ∈ [py "easy"; py "medium"; py "hard"];
}.

(** [make_question] once the sentence and the answer are known. *)
Definition finish_question (U : unicode) (fuel : nat)
    (title summary sentence : str) (words : list str) (c : str)
  : Rand Question :=
  let* options := build_options fuel words [c] in
  let* options := shuffle options in
  let* difficulty := choice difficulty_levels in
  ret {| question := question_text U title summary sentence ++ py "?";
         options := options;
         answer := c;
         explanation := explanation_text U sentence;
         difficulty := difficulty |}.

(** The number of questions, as the specification words it: the quotient
    by three of the number of sentences, clamped to the interval 5..7. *)
Definition clamp (x lo hi : nat) : nat := lo `max` (x `min` hi).

(** The text of a string operation, said without the operation.  [t] is
    the first [n] characters of [s], all of [s] when [s] is shorter: *)
Definition first_chars (n : nat) (s t : str) : Prop :=
  ∃ rest, s = t ++ rest ∧ length t = n `min` length s.

(** [t] is [s] without the characters of the class [p] at its end: what is
    cut off is all in the class, what is left does not end in it. *)
Definition rstripped (p : N → bool) (s t : str) : Prop :=
  ∃ post, s = t ++ post ∧ Forall (λ c, p c = true) post ∧
          ∀ c, last t = Some c → p c = false.

(** [t] is [s] without the characters of the class [p] at both ends. *)
Definition stripped (p : N → bool) (s t : str) : Prop :=
  ∃ pre post, s = pre ++ t ++ post ∧
    Forall (λ c, p c = true) pre ∧ Forall (λ c, p c = true) post ∧
    (∀ c, head t = Some c → p c = false) ∧
    (∀ c, last t = Some c → p c = false).

(** [toks] are the tokens of [s] for the separators [p]: [s] is some
    separators, then a token, which is not empty, holds no separator and is
    followed by a separator or by nothing, then the text of the other
    tokens; a text of separators only has no token. *)
Inductive tokens_of (p : N → bool) : str → list str → Prop :=
  | tokens_none seps :
      Forall (λ c, p c = true) seps → tokens_of p seps []
  | tokens_next seps t rest toks :
      Forall (λ c, p c = true) seps →
      t ≠ [] → Forall (λ c, p c = false) t →
      (∀ c, head rest = Some c → p c = true) →
      tokens_of p rest toks →
      tokens_of p (seps ++ t ++ rest) (t :: toks).

(** The character at position [i] of [s] follows a cased character; the
    first one does when [previous_is_cased] says so. *)
Definition follows_cased (U : unicode) (previous_is_cased : bool) (s : str)
    (i : nat) : Prop :=
  match i with
  | 0 => previous_is_cased = true
  | S j => ∃ d, s !! j = Some d ∧ is_cased U d = true
  end.

(** Title case, position by position: there is a cased character, and a
    cased character is an uppercase one exactly when it does not follow a
    cased character. *)
Definition title_cased (U : unicode) (s : str) : Prop :=
  (∃ c, c ∈ s ∧ is_cased U c = true) ∧
  ∀ i c, s !! i = Some c → is_cased U c = true →
         (is_upper U c = true ↔ ¬ follows_cased U false s i).

(** The punctuation of line 77, character by character *)
Definition is_punctuation (c : N) : bool :=
  bool_decide (c ∈ [44%N; 46%N; 40%N; 41%N; 34%N]).

(** Keep the first occurrence of every entry. *)
Fixpoint dedup_first (l : list str) : list str :=
  match l with
  | [] => []
  | x :: l' => x :: filter (λ y, y ≠ x) (dedup_first l')
  end.

(** The related topics as the specification words them: the first five
    sections without the empty and the repeated ones, then, while fewer than
    six topics are there, the first six words of the pool that are not yet
    among the topics. *)
Definition related_topics_spec (sections pool : list str) : list str :=
  let from_sections := dedup_first (filter (λ s, truthy s) (take 5 sections)) in
  from_sections ++
  take (6 - length from_sections)
       (filter (λ w, w ∉ from_sections) (dedup_first (take 6 pool))).

(** The Quiz schema of the specification's data model, on a quiz object. *)
Definition question_schema (q : Question) : Prop :=
  length q.(options) = 4 ∧ NoDup q.(options) ∧ q.(answer) ∈ q.(options) ∧
  q.(difficulty) ∈ [py "easy"; py "medium"; py "hard"].

Definition quiz_schema (Q : Quiz) : Prop :=
  is_Some Q.(quiz_title) ∧ is_Some Q.(quiz_summary) ∧
  5 ≤ length Q.(quiz) ≤ 10 ∧ Forall question_schema Q.(quiz).

(** What the library is known to do whatever its version: a JSON string
    is valid for a [str] field and is taken as it is, and a JSON object is
    read as the dictionary of its members. *)
Definition pydantic_contract (P : pydantic) : Prop :=
  (∀ s, str_validator P (JStr s) = Some s) ∧
  (∀ members, as_dict_root P (JObj members) = Ok members) ∧
  (∀ members, as_dict_item P (JObj members) = Some members).

(** The shape that validation checks, as a relation between the payload
    and the accepted object: a [str] field holds what the library makes of
    the member of its name, a list field what it makes of the items of an
    array, an optional field is [None] for [null] and, where a missing field
    is not an error, for a missing member. *)
Definition str_field (P : pydantic) (members : list (str * json))
    (key s : str) : Prop :=
  ∃ v, dict_get key members = Some v ∧ str_validator P v = Some s.

Definition str_list_field (P : pydantic) (members : list (str * json))
    (key : str) (l : list str) : Prop :=
  ∃ items, dict_get key members = Some (JArr items) ∧
           Forall2 (λ v s, str_validator P v = Some s) items l.

Definition optional_str_field (P : pydantic) (members : list (str * json))
    (key : str) (o : option str) : Prop :=
  match dict_get key members with
  | None => optional_default P = true ∧ o = None
  | Some JNull => o = None
  | Some v => ∃ s, str_validator P v = Some s ∧ o = Some s
  end.

Definition question_shape (P : pydantic) (v : json) (q : Question) : Prop :=
  ∃ members, as_dict_item P v = Some members ∧
    str_field P members (py "question") q.(question) ∧
    str_list_field P members (py "options") q.(options) ∧
    str_field P members (py "answer") q.(answer) ∧
    str_field P members (py "explanation") q.(explanation) ∧
    str_field P members (py "difficulty") q.(difficulty).

Definition quiz_shape (P : pydantic) (payload : json) (Q : Quiz) : Prop :=
  ∃ members items, as_dict_root P payload = Ok members ∧
    optional_str_field P members (py "title") Q.(quiz_title) ∧
    optional_str_field P members (py "summary") Q.(quiz_summary) ∧
    dict_get (py "quiz") members = Some (JArr items) ∧
    Forall2 (question_shape P) items Q.(quiz) ∧
    str_list_field P members (py "related_topics") Q.(related_topics).

(** A quiz object written down as JSON, field by field. *)
Definition json_of_question (q : Question) : json :=
  JObj [(py "question", JStr q.(question));
        (py "options", JArr (JStr <$> q.(options)));
        (py "answer", JStr q.(answer));
        (py "explanation", JStr q.(explanation));
        (py "difficulty", JStr q.(difficulty))].

Definition json_of_optional (o : option str) : json :=
  match o with Some s => JStr s | None => JNull end.

Definition json_of_quiz (Q : Quiz) : json :=
  JObj [(py "title", json_of_optional Q.(quiz_title));
        (py "summary", json_of_optional Q.(quiz_summary));
        (py "quiz", JArr (json_of_question <$> Q.(quiz)));
        (py "related_topics", JArr (JStr <$> Q.(related_topics)))].

(** The outcome of one remote attempt, said without the code's helpers:
    nothing without a key or without a reply, nothing for an empty key or an
    empty reply, and otherwise what parsing and validating the reply
    gives. *)
Definition remote_quiz (w : World) (key : option str)
    (call : str → option str) (prompt : str) : result (option Quiz) :=
  match key, call prompt with
  | Some k, Some text =>
      if decide (k ≠ [] ∧ text ≠ [])
      then _parse_and_validate_json w.(json_loads) w.(validation) text
      else Ok None
  | _, _ => Ok None
  end.

Definition gemini_quiz (w : World) (prompt : str) : result (option Quiz) :=
  remote_quiz w w.(GEMINI_API_KEY) w.(gemini_generate) prompt.

Definition openai_quiz (w : World) (prompt : str) : result (option Quiz) :=
  remote_quiz w w.(OPENAI_API_KEY) w.(openai_chat) prompt.
(** * Proofs *)

(** ** Literals *)

Lemma N_of_ascii_inj a b : N_of_ascii a = N_of_ascii b → a = b.
Proof.
  intros H. by rewrite <-(ascii_N_embedding a), <-(ascii_N_embedding b), H.
Qed.

(** Different literals are different strings. *)
Lemma py_inj a b : py a = py b → a = b.
Proof.
  unfold py. intros H.
  rewrite <-(string_of_list_ascii_of_string a), <-(string_of_list_ascii_of_string b).
  f_equal. revert H. generalize (list_ascii_of_string a) (list_ascii_of_string b).
  induction l as [|x l IH]; intros [|y l']; simpl; try done.
  intros [= Hxy Hl]. f_equal; [by apply N_of_ascii_inj|by apply IH].
Qed.

(** ** Reasoning about [Rand] computations *)

Lemma bind_Ret {A B} (m : Rand A) (k : A → Rand B) r b r' :
  bind m k r = Ret (b, r') ↔ ∃ a r1, m r = Ret (a, r1) ∧ k a r1 = Ret (b, r').
Proof.
  unfold bind. destruct (m r) as [[a r1]|e'|]; split;
    try (intros (?&?&?&?)); intros; simplify_eq; eauto.
Qed.

Lemma bind_Raise {A B} (m : Rand A) (k : A → Rand B) r e :
  bind m k r = Raise e ↔
  m r = Raise e ∨ ∃ a r1, m r = Ret (a, r1) ∧ k a r1 = Raise e.
Proof.
  unfold bind. destruct (m r) as [[a r1]|e'|]; split;
    try (intros [?|(?&?&?&?)]); intros; simplify_eq; eauto.
Qed.

Lemma bind_Timeout {A B} (m : Rand A) (k : A → Rand B) r :
  bind m k r = Timeout ↔
  m r = Timeout ∨ ∃ a r1, m r = Ret (a, r1) ∧ k a r1 = Timeout.
Proof.
  unfold bind. destruct (m r) as [[a r1]|e'|]; split;
    try (intros [?|(?&?&?&?)]); intros; simplify_eq; eauto.
Qed.

Lemma bind_step {A B} (m : Rand A) (k : A → Rand B) r a r1 :
  m r = Ret (a, r1) → bind m k r = k a r1.
Proof. unfold bind. by intros ->. Qed.

Lemma advance_advance j k r : advance j (advance k r) = advance (k + j) r.
Proof. unfold advance. simpl. f_equal. lia. Qed.

Lemma advance_0 r : advance 0 r = r.
Proof. destruct r. unfold advance. simpl. f_equal. lia. Qed.

Section RandomFacts.
Context {A : Type}.
Implicit Types (l x : list A) (r : rng).

Lemma randbelow_eq n r : randbelow n r = Ret (peek r `mod` n, advance 1 r).
Proof. done. Qed.

Lemma choice_eq l r :
  l ≠ [] → ∃ a, l !! (peek r `mod` length l) = Some a ∧
                choice l r = Ret (a, advance 1 r).
Proof.
  intros Hl. destruct (lookup_lt_is_Some_2 l (peek r `mod` length l)) as [a Ha].
  { apply Nat.mod_upper_bound. by destruct l. }
  exists a. split; [done|]. destruct l; [done|].
  unfold choice. rewrite (bind_step _ _ _ _ _ (randbelow_eq _ _)).
  by rewrite Ha.
Qed.

Lemma swap_length x i j : length (swap x i j) = length x.
Proof.
  unfold swap. destruct (x !! i), (x !! j); by rewrite ?length_insert.
Qed.

Lemma swap_lookup x i j n :
  i < length x → j < length x →
  swap x i j !! n =
  x !! (if decide (n = i) then j else if decide (n = j) then i else n).
Proof.
  intros [a Hi]%lookup_lt_is_Some_2 [b Hj]%lookup_lt_is_Some_2.
  unfold swap. rewrite Hi, Hj.
  pose proof (lookup_lt_Some _ _ _ Hi). pose proof (lookup_lt_Some _ _ _ Hj).
  repeat case_decide; subst.
  - rewrite list_lookup_insert_eq by (by rewrite length_insert). done.
  - rewrite list_lookup_insert_ne by done.
    rewrite list_lookup_insert_eq by done. done.
  - by rewrite !list_lookup_insert_ne by done.
Qed.

Lemma swap_Permutation x i j : swap x i j ≡ₚ x.
Proof.
  destruct (decide (i < length x ∧ j < length x)) as [[Hi Hj]|Hout].
  - apply Permutation_inj. split; [apply swap_length|].
    exists (λ n, if decide (n = i) then j else if decide (n = j) then i else n).
    split; [|intros n; by apply swap_lookup].
    intros n m. repeat case_decide; congruence.
  - unfold swap.
    destruct (x !! i) as [a|] eqn:Ei; [|done].
    destruct (x !! j) as [b|] eqn:Ej; [|done].
    apply lookup_lt_Some in Ei, Ej. lia.
Qed.

Lemma shuffle_from_eq i x r :
  ∃ y, shuffle_from i x r = Ret (y, advance i r) ∧ y ≡ₚ x.
Proof.
  revert x r. induction i as [|i IH]; intros x r; simpl.
  - exists x. split; [|done]. unfold ret. by rewrite advance_0.
  - rewrite (bind_step _ _ _ _ _ (randbelow_eq _ _)).
    destruct (IH (swap x (S i) (peek r `mod` S (S i))) (advance 1 r))
      as (y & -> & Hy).
    exists y. split; [|by rewrite Hy, swap_Permutation].
    by rewrite advance_advance.
Qed.

(** [random.shuffle] returns a rearrangement of its argument, whatever the
    tape holds. *)
Lemma shuffle_eq x r :
  ∃ y, shuffle x r = Ret (y, advance (length x - 1) r) ∧ y ≡ₚ x.
Proof. apply shuffle_from_eq. Qed.

End RandomFacts.

(** ** The option loop *)

Lemma fair_id : fair id.
Proof.
  intros k v n Hv. exists (n * k + v). split; [nia|].
  unfold id. rewrite Nat.add_comm, Nat.Div0.mod_add. by apply Nat.mod_small.
Qed.

Lemma option_names_length : length option_names = 99.
Proof. done. Qed.

Lemma option_names_lookup i :
  i < 99 → option_names !! i = Some (py "Option" ++ py (pretty (1 + i))).
Proof.
  intros Hi. unfold option_names. rewrite list_lookup_fmap.
  by rewrite lookup_seq_lt.
Qed.

Lemma option_names_NoDup : NoDup option_names.
Proof.
  unfold option_names. apply NoDup_fmap_2; [|apply NoDup_seq].
  intros n m Hnm. apply (inj (app (py "Option"))) in Hnm.
  apply py_inj in Hnm. by apply (inj pretty) in Hnm.
Qed.

Lemma picks_nonempty words : picks words ≠ [].
Proof. by destruct words. Qed.

Lemma draw_pick_choice words r : draw_pick words r = choice (picks words) r.
Proof.
  destruct words as [|w ws]; [|done].
  change (picks []) with option_names.
  destruct (choice_eq option_names r) as (a & Ha & ->); [done|].
  rewrite option_names_length in Ha.
  rewrite option_names_lookup in Ha by (by apply Nat.mod_upper_bound).
  simplify_eq. done.
Qed.

Lemma draw_pick_eq words r :
  ∃ p, pick_at words r 0 = Some p ∧ draw_pick words r = Ret (p, advance 1 r).
Proof.
  rewrite draw_pick_choice.
  destruct (choice_eq (picks words) r) as (a & Ha & ->); [apply picks_nonempty|].
  exists a. split; [|done]. unfold pick_at. by rewrite Nat.add_0_r.
Qed.

Lemma pick_at_elem words r j p : pick_at words r j = Some p → p ∈ picks words.
Proof. apply list_elem_of_lookup_2. Qed.

Lemma pick_at_advance words r j : pick_at words (advance 1 r) j = pick_at words r (S j).
Proof. unfold pick_at, advance. simpl. do 3 f_equal. lia. Qed.

Section OptionLoop.
Implicit Types (words opts res : list str) (r : rng).

Lemma build_options_done fuel words opts r :
  4 ≤ length opts → build_options fuel words opts r = Ret (opts, r).
Proof.
  intros H. destruct fuel; simpl;
    (destruct (length opts <? 4) eqn:E; [apply Nat.ltb_lt in E; lia|done]).
Qed.

Lemma build_options_step fuel words opts r p :
  length opts < 4 → pick_at words r 0 = Some p →
  build_options (S fuel) words opts r =
  build_options fuel words (if decide (p ∈ opts) then opts else opts ++ [p])
                (advance 1 r).
Proof.
  intros Hlen Hp. simpl. apply Nat.ltb_lt in Hlen as ->.
  destruct (draw_pick_eq words r) as (p' & Hp' & Hd).
  rewrite (bind_step _ _ _ _ _ Hd). simplify_eq. by case_decide.
Qed.

Lemma build_options_out_of_fuel words opts r :
  length opts < 4 → build_options 0 words opts r = Timeout.
Proof. intros Hlen. simpl. by apply Nat.ltb_lt in Hlen as ->. Qed.

(** What the loop returns, when it returns: the initial options followed
    by picks, four in all and without repetition. *)
Lemma build_options_Ret fuel words opts r res r' :
  build_options fuel words opts r = Ret (res, r') →
  length opts ≤ 4 → NoDup opts →
  length res = 4 ∧ NoDup res ∧ opts `prefix_of` res ∧
  (∀ x, x ∈ res → x ∈ opts ∨ x ∈ picks words) ∧
  ∃ k, r' = advance k r.
Proof.
  revert opts r. induction fuel as [|fuel IH]; intros opts r Hrun Hlen Hnd.
  - destruct (decide (length opts < 4)) as [Hlt|Hge].
    + by rewrite build_options_out_of_fuel in Hrun.
    + rewrite build_options_done in Hrun by lia. simplify_eq.
      split_and!; [lia|done|done|auto|]. exists 0. by rewrite advance_0.
  - destruct (decide (length opts < 4)) as [Hlt|Hge].
    + destruct (draw_pick_eq words r) as (p & Hp & _).
      rewrite (build_options_step _ _ _ _ p) in Hrun by done.
      apply pick_at_elem in Hp.
      case_decide as Hin.
      * destruct (IH _ _ Hrun) as (? & ? & ? & ? & k & ->); [done..|].
        split_and!; [done..|]. exists (1 + k). by rewrite advance_advance.
      * destruct (IH _ _ Hrun) as (? & ? & Hpre & Hfrom & k & ->).
        { rewrite length_app. simpl. lia. }
        { apply NoDup_app. split_and!; [done| |apply NoDup_singleton].
          intros x Hx ->%list_elem_of_singleton. done. }
        split_and!; [done|done| | |].
        -- etrans; [|done]. by apply prefix_app_r.
        -- intros x Hx. destruct (Hfrom x Hx) as [Hx'|Hx']; [|by right].
           apply elem_of_app in Hx' as [?| ->%list_elem_of_singleton]; auto.
        -- exists (1 + k). by rewrite advance_advance.
    + rewrite build_options_done in Hrun by lia. simplify_eq.
      split_and!; [lia|done|done|auto|]. exists 0. by rewrite advance_0.
Qed.

(** The loop raises nothing. *)
Lemma build_options_no_Raise fuel words opts r e :
  build_options fuel words opts r ≠ Raise e.
Proof.
  revert opts r. induction fuel as [|fuel IH]; intros opts r.
  - destruct (decide (length opts < 4)).
    + by rewrite build_options_out_of_fuel.
    + by rewrite build_options_done by lia.
  - destruct (decide (length opts < 4)).
    + destruct (draw_pick_eq words r) as (p & Hp & _).
      rewrite (build_options_step _ _ _ _ p) by done. apply IH.
    + by rewrite build_options_done by lia.
Qed.

(** Starvation: with a non-empty pool the picks all come from the pool, so
    when the pool and the initial options together hold fewer than four
    distinct strings the loop never gets to four options, whatever the
    tape and however long it runs. *)
Lemma build_options_starved univ fuel words opts r :
  words ≠ [] → length univ < 4 → NoDup opts →
  opts ⊆ univ → words ⊆ univ →
  build_options fuel words opts r = Timeout.
Proof.
  intros Hne Huniv. revert opts r.
  induction fuel as [|fuel IH]; intros opts r Hnd Hopts Hwords.
  all: assert (length opts < 4) as Hlt
    by (eapply Nat.le_lt_trans; [|done];
        apply submseteq_length, NoDup_submseteq; auto).
  - by apply build_options_out_of_fuel.
  - destruct (draw_pick_eq words r) as (p & Hp & _).
    rewrite (build_options_step _ _ _ _ p) by done.
    apply pick_at_elem in Hp.
    assert (p ∈ words) as Hpw by (by destruct words).
    case_decide as Hin; apply IH; try done.
    + apply NoDup_app. split_and!; [done| |apply NoDup_singleton].
      intros x Hx ->%list_elem_of_singleton. done.
    + intros x [?| ->%list_elem_of_singleton]%elem_of_app; auto.
Qed.

End OptionLoop.

Section OptionLoopProgress.
Implicit Types (words opts res extra : list str) (r : rng).

(** If some later draw yields a str that is not yet an option, the
    loop skips draws until the first such str and appends it. *)
Lemma build_options_seek words opts r j p :
  length opts < 4 → pick_at words r j = Some p → p ∉ opts →
  ∃ j' p', p' ∈ picks words ∧ (p' ∉ opts) ∧
    ∀ fuel, build_options (S j' + fuel) words opts r =
            build_options fuel words (opts ++ [p']) (advance (S j') r).
Proof.
  intros Hlt. revert r. induction j as [|j IH]; intros r Hp Hnew.
  - exists 0, p. split_and!; [eapply pick_at_elem; done | done | ].
    intros fuel. rewrite (build_options_step _ _ _ _ p) by done.
    by rewrite decide_False.
  - destruct (draw_pick_eq words r) as (p0 & Hp0 & _).
    destruct (decide (p0 ∈ opts)) as [Hin|Hout].
    + rewrite <-pick_at_advance in Hp.
      destruct (IH _ Hp Hnew) as (j' & p' & ? & ? & Hrun).
      exists (S j'), p'. split_and!; [done..|].
      intros fuel. change (S (S j') + fuel) with (S (S j' + fuel)).
      rewrite (build_options_step _ _ _ _ p0) by done.
      rewrite decide_True by done. rewrite Hrun. by rewrite advance_advance.
    + exists 0, p0. split_and!; [eapply pick_at_elem; done|done|].
      intros fuel. rewrite (build_options_step _ _ _ _ p0) by done.
      by rewrite decide_False.
Qed.

Lemma remove_one (c : str) (l : list str) :
  NoDup l → ∃ l', NoDup l' ∧ l' ⊆ l ∧ (c ∉ l') ∧ length l ≤ S (length l').
Proof.
  intros Hnd. destruct (decide (c ∈ l)) as [Hin|Hout].
  - apply list_elem_of_split in Hin as (l1 & l2 & ->).
    apply NoDup_app in Hnd as (Hl1 & Hdisj & [Hc Hl2]%NoDup_cons).
    exists (l1 ++ l2). split_and!.
    + apply NoDup_app. split_and!; [done| |done].
      intros x Hx Hx2. eapply Hdisj; [done|]. by right.
    + intros x [?|?]%elem_of_app; apply elem_of_app; [by left|right; by right].
    + intros [Hc1|?]%elem_of_app; [|done]. eapply Hdisj; [done|]. by left.
    + rewrite !length_app. simpl. lia.
  - exists l. split_and!; [done..|lia].
Qed.

(** Progress: on a fair tape the loop returns as soon as enough distinct
    strings are available to it, and more fuel does not change the
    result. *)
Lemma build_options_fair words opts r extra :
  fair (tape r) → NoDup extra → extra ⊆ picks words →
  (∀ x, x ∈ extra → x ∉ opts) → 4 ≤ length opts + length extra →
  ∃ fuel res k, ∀ fuel', fuel ≤ fuel' →
    build_options fuel' words opts r = Ret (res, advance k r).
Proof.
  intros Hfair. remember (4 - length opts) as n eqn:Hn.
  revert opts r extra Hn Hfair.
  induction n as [|n IH]; intros opts r extra Hn Hfair Hnd Hsub Hnew Hlen.
  - exists 0, opts, 0. intros fuel' _.
    rewrite build_options_done by lia. by rewrite advance_0.
  - destruct extra as [|x extra']; [simpl in Hlen; lia|].
    assert (x ∈ picks words) as [i Hi]%list_elem_of_lookup_1
      by (apply Hsub; by left).
    destruct (Hfair (length (picks words)) i (pos r)) as (m & Hm & Hdraw).
    { by eapply lookup_lt_Some. }
    assert (pick_at words r (m - pos r) = Some x) as Hp.
    { unfold pick_at. replace (pos r + (m - pos r)) with m by lia.
      by rewrite Hdraw. }
    destruct (build_options_seek words opts r (m - pos r) x) as (j' & p' & Hp' & Hp'new & Hrun);
      [lia|done|apply Hnew; by left|].
    destruct (remove_one p' (x :: extra') Hnd) as (ex & ? & Hex & ? & Hexlen).
    destruct (IH (opts ++ [p']) (advance (S j') r) ex) as (fuel & res & k & Hres).
    + rewrite length_app. simpl. lia.
    + done.
    + done.
    + intros y Hy. apply Hsub. by apply Hex.
    + intros y Hy [Hyo| ->%list_elem_of_singleton]%elem_of_app; [|done].
      by apply (Hnew y (Hex y Hy)).
    + rewrite length_app. simpl in *. lia.
    + exists (S j' + fuel), res, (S j' + k). intros fuel' Hfuel.
      replace fuel' with (S j' + (fuel' - S j')) by lia.
      rewrite Hrun, Hres by lia. by rewrite advance_advance.
Qed.

End OptionLoopProgress.

(** ** One question *)

Section QuestionFacts.
Variable U : unicode.
Implicit Types (sentences words : list str) (r : rng) (q : Question).

Lemma index_Ret {A} (l : list A) i r a r' :
  index l i r = Ret (a, r') ↔ l !! i = Some a ∧ r' = r.
Proof.
  unfold index. destruct (l !! i) as [b|]; unfold ret, raise; split;
    try intros [??]; intros; by simplify_eq.
Qed.

Lemma source_sentence_is_Some sentences i :
  sentences ≠ [] → is_Some (source_sentence sentences i).
Proof.
  intros Hne. apply lookup_lt_is_Some_2. destruct sentences; [done|].
  case_match eqn:E; [by apply Nat.ltb_lt in E|simpl; lia].
Qed.

(** The choice of the answer always returns. *)
Lemma pick_correct_eq title sentence r :
  ∃ c k, pick_correct U title sentence r = Ret (c, advance k r) ∧
         correct_for U title sentence c.
Proof.
  unfold pick_correct, correct_for.
  destruct (candidates_of U sentence) as [|c0 cs] eqn:Ec.
  - destruct (split_ws U sentence) as [|p ps].
    + exists title, 0. by rewrite advance_0.
    + exists p, 0. by rewrite advance_0.
  - destruct (choice_eq (c0 :: cs) r) as (a & Ha & Hc); [done|].
    exists a, 1. split; [done|]. split; [|done].
    intros _. by eapply list_elem_of_lookup_2.
Qed.

Lemma difficulty_eq r :
  ∃ d, choice difficulty_levels r = Ret (d, advance 1 r) ∧
       d ∈ [py "easy"; py "medium"; py "hard"].
Proof.
  destruct (choice_eq difficulty_levels r) as (d & Hd & Hc); [done|].
  exists d. split; [done|].
  apply list_elem_of_lookup_2 in Hd. revert Hd. cbn.
  rewrite !elem_of_cons. tauto.
Qed.

Lemma make_question_unfold fuel title summary sentences words i r sentence c r1 :
  source_sentence sentences i = Some sentence →
  pick_correct U title sentence r = Ret (c, r1) →
  make_question U fuel title summary sentences words i r =
  finish_question U fuel title summary sentence words c r1.
Proof.
  intros Hs Hc. unfold make_question.
  rewrite (bind_step _ _ r sentence r) by (by apply index_Ret).
  by rewrite (bind_step _ _ _ _ _ Hc).
Qed.

Lemma make_question_Ret fuel title summary sentences words i r q r' :
  make_question U fuel title summary sentences words i r = Ret (q, r') →
  ∃ sentence, source_sentence sentences i = Some sentence ∧
              question_for U title summary sentence words q ∧
              ∃ k, r' = advance k r.
Proof.
  intros Hrun.
  destruct (source_sentence sentences i) as [sentence|] eqn:Hs; last first.
  { unfold make_question, source_sentence in *.
    apply bind_Ret in Hrun as (? & ? & [? _]%index_Ret & _). congruence. }
  exists sentence. split; [done|].
  destruct (pick_correct_eq title sentence r) as (c & k & Hpick & Hc).
  rewrite (make_question_unfold _ _ _ _ _ _ _ _ _ _ Hs Hpick) in Hrun.
  apply bind_Ret in Hrun as (opts & r1 & Hloop & Hrun).
  apply build_options_Ret in Hloop
    as (Hfour & Hnd & Hpre & Hfrom & k1 & ->);
    [|simpl; lia|apply NoDup_singleton].
  destruct (shuffle_eq opts (advance k1 (advance k r))) as (sh & Hsh & Hperm).
  rewrite (bind_step _ _ _ _ _ Hsh) in Hrun.
  destruct (difficulty_eq (advance (length opts - 1) (advance k1 (advance k r))))
    as (d & Hd & Hdin).
  rewrite (bind_step _ _ _ _ _ Hd) in Hrun. unfold ret in Hrun.
  simplify_eq. split.
  - split; simpl; try done.
    + by rewrite Hperm.
    + by rewrite Hperm.
    + rewrite Hperm. eapply elem_of_prefix; [|done]. by left.
    + intros x Hx. rewrite Hperm in Hx.
      destruct (Hfrom x Hx) as [->%list_elem_of_singleton|?]; auto.
  - eexists. by rewrite !advance_advance.
Qed.

Lemma make_question_no_Raise fuel title summary sentences words i r e :
  sentences ≠ [] →
  make_question U fuel title summary sentences words i r ≠ Raise e.
Proof.
  intros [sentence Hs]%(source_sentence_is_Some _ i).
  destruct (pick_correct_eq title sentence r) as (c & k & Hpick & Hc).
  rewrite (make_question_unfold _ _ _ _ _ _ _ _ _ _ Hs Hpick).
  intros [Hloop|(opts & r1 & _ & Hrun)]%bind_Raise.
  { by apply build_options_no_Raise in Hloop. }
  destruct (shuffle_eq opts r1) as (sh & Hsh & _).
  rewrite (bind_step _ _ _ _ _ Hsh) in Hrun.
  destruct (difficulty_eq (advance (length opts - 1) r1)) as (d & Hd & _).
  by rewrite (bind_step _ _ _ _ _ Hd) in Hrun.
Qed.

(** A question whose answer can only come from a universe of fewer than
    four strings, shared with a non-empty pool, is never finished. *)
Lemma make_question_starved univ fuel title summary sentences words i r sentence :
  source_sentence sentences i = Some sentence →
  words ≠ [] → length univ < 4 → words ⊆ univ →
  (∀ c, correct_for U title sentence c → c ∈ univ) →
  make_question U fuel title summary sentences words i r = Timeout.
Proof.
  intros Hs Hne Hlen Hwords Hcorrect.
  destruct (pick_correct_eq title sentence r) as (c & k & Hpick & Hc).
  rewrite (make_question_unfold _ _ _ _ _ _ _ _ _ _ Hs Hpick).
  apply bind_Timeout. left.
  apply (build_options_starved univ); [done|done|apply NoDup_singleton| |done].
  intros x ->%list_elem_of_singleton. by apply Hcorrect.
Qed.

(** On a fair tape a question is finished when the pool is empty or holds
    at least four distinct words. *)
Lemma make_question_fair title summary sentences words i r :
  fair (tape r) → sentences ≠ [] →
  NoDup words → (words = [] ∨ 4 ≤ length words) →
  ∃ fuel q k, ∀ fuel', fuel ≤ fuel' →
    make_question U fuel' title summary sentences words i r = Ret (q, advance k r).
Proof.
  intros Hfair [sentence Hs]%(source_sentence_is_Some _ i) Hnd Hpool.
  destruct (pick_correct_eq title sentence r) as (c & k & Hpick & Hc).
  assert (NoDup (picks words) ∧ 4 ≤ length (picks words)) as [Hpnd Hplen].
  { destruct Hpool as [->|?].
    - split; [apply option_names_NoDup|].
      change (picks []) with option_names. rewrite option_names_length. lia.
    - destruct words; [simpl in *; lia|done]. }
  destruct (remove_one c (picks words) Hpnd) as (extra & ? & ? & ? & ?).
  destruct (build_options_fair words [c] (advance k r) extra)
    as (fuel & opts & k1 & Hloop); [done..| | |].
  { intros x Hx ->%list_elem_of_singleton. done. }
  { simpl. lia. }
  destruct (shuffle_eq opts (advance k1 (advance k r))) as (sh & Hsh & _).
  destruct (difficulty_eq (advance (length opts - 1) (advance k1 (advance k r))))
    as (d & Hd & _).
  eexists fuel, _, _. intros fuel' Hfuel.
  rewrite (make_question_unfold _ _ _ _ _ _ _ _ _ _ Hs Hpick).
  unfold finish_question.
  rewrite (bind_step _ _ _ _ _ (Hloop _ Hfuel)).
  rewrite (bind_step _ _ _ _ _ Hsh), (bind_step _ _ _ _ _ Hd).
  unfold ret. by rewrite !advance_advance.
Qed.

End QuestionFacts.

(** ** The question loop *)

Section ForAppend.
Context {A B : Type}.
Implicit Types (xs : list A) (ys zs : list B) (r : rng).

Lemma for_append_Ret (body : A → Rand B) (P : A → B → Prop) xs ys r res r' :
  (∀ x r1 y r2, body x r1 = Ret (y, r2) → P x y) →
  for_append body xs ys r = Ret (res, r') →
  ∃ zs, res = ys ++ zs ∧ Forall2 P xs zs.
Proof.
  intros Hbody. revert ys r. induction xs as [|x xs IH]; intros ys r Hrun.
  - simpl in Hrun. unfold ret in Hrun. simplify_eq.
    exists []. by rewrite app_nil_r.
  - simpl in Hrun. apply bind_Ret in Hrun as (y & r1 & Hy & Hrun).
    apply IH in Hrun as (zs & -> & Hzs).
    exists (y :: zs). split; [by rewrite <-app_assoc|].
    constructor; [by eapply Hbody|done].
Qed.

Lemma for_append_no_Raise (body : A → Rand B) xs ys r e :
  (∀ x r1, body x r1 ≠ Raise e) → for_append body xs ys r ≠ Raise e.
Proof.
  intros Hbody. revert ys r. induction xs as [|x xs IH]; intros ys r; [done|].
  simpl. intros [?|(y & r1 & _ & Hrun)]%bind_Raise; [by eapply Hbody|].
  by eapply IH.
Qed.

Lemma for_append_fair (body : nat → A → Rand B) xs ys r :
  (∀ x r1, fair (tape r1) → ∃ fuel y k, ∀ fuel', fuel ≤ fuel' →
     body fuel' x r1 = Ret (y, advance k r1)) →
  fair (tape r) →
  ∃ fuel res k, ∀ fuel', fuel ≤ fuel' →
    for_append (body fuel') xs ys r = Ret (res, advance k r).
Proof.
  intros Hbody. revert ys r. induction xs as [|x xs IH]; intros ys r Hfair.
  - exists 0, ys, 0. intros fuel' _. simpl. unfold ret. by rewrite advance_0.
  - destruct (Hbody x r Hfair) as (fuel1 & y & k1 & Hy).
    destruct (IH (ys ++ [y]) (advance k1 r) Hfair) as (fuel2 & res & k2 & Hres).
    exists (fuel1 `max` fuel2), res, (k1 + k2). intros fuel' Hfuel. simpl.
    rewrite (bind_step _ _ _ _ _ (Hy fuel' ltac:(lia))).
    rewrite Hres by lia. by rewrite advance_advance.
Qed.

End ForAppend.

(** ** The generator as a whole *)

Lemma sentences_of_nonempty U title summary clean_text :
  sentences_of U title summary clean_text ≠ [].
Proof.
  unfold sentences_of. destruct (split_sentences U clean_text); [|done].
  by destruct (truthy summary).
Qed.

Lemma num_q_of_bounds sentences : 5 ≤ num_q_of sentences ≤ 7.
Proof. unfold num_q_of. lia. Qed.

Section FallbackFacts.
Variable U : unicode.
Variable list_of_set : gset str → list str.
Hypothesis list_of_set_perm : ∀ X, list_of_set X ≡ₚ elements X.

Lemma word_pool_NoDup sentences : NoDup (word_pool U list_of_set sentences).
Proof.
  unfold word_pool. eapply sublist_NoDup; [|apply sublist_take].
  rewrite list_of_set_perm. apply NoDup_elements.
Qed.

Lemma word_pool_elem sentences w :
  w ∈ word_pool U list_of_set sentences → w ∈ word_set U sentences.
Proof.
  unfold word_pool. intros Hw%subseteq_take.
  rewrite list_of_set_perm in Hw. by apply elem_of_elements in Hw.
Qed.

Lemma word_pool_length sentences :
  length (word_pool U list_of_set sentences) = 50 `min` size (word_set U sentences).
Proof.
  unfold word_pool. rewrite length_take, list_of_set_perm. done.
Qed.

End FallbackFacts.

Section GeneratorFacts.
Variable U : unicode.
Variable list_of_set : gset str → list str.
Implicit Types (title summary clean_text : str) (sections : list str).

(** The shape of every result: the inputs are copied, the related topics
    are those of lines 106-112 and the quiz holds one question per index
    below [num_q], each built from its source sentence. *)
Lemma fallback_Ret fuel title summary clean_text sections r Q r' :
  _fallback_generate_from_text U list_of_set fuel title summary clean_text sections r
    = Ret (Q, r') →
  let sentences := sentences_of U title summary clean_text in
  let words := word_pool U list_of_set sentences in
  Q.(quiz_title) = Some title ∧ Q.(quiz_summary) = Some summary ∧
  Q.(related_topics) = related_of sections words ∧
  Forall2 (λ i q, ∃ sentence, source_sentence sentences i = Some sentence ∧
                              question_for U title summary sentence words q)
          (seq 0 (num_q_of sentences)) Q.(quiz).
Proof.
  intros Hrun sentences words. unfold _fallback_generate_from_text in Hrun.
  apply bind_Ret in Hrun as (qs & r1 & Hloop & Hret).
  unfold ret in Hret. simplify_eq. split_and!; try done. simpl.
  eapply for_append_Ret in Hloop as (zs & -> & Hzs); [done|].
  intros i r2 q r3 Hq. simpl.
  apply make_question_Ret in Hq as (sentence & ? & ? & _). eauto.
Qed.

Lemma fallback_no_Raise fuel title summary clean_text sections r e :
  _fallback_generate_from_text U list_of_set fuel title summary clean_text sections r
    ≠ Raise e.
Proof.
  unfold _fallback_generate_from_text.
  intros [Hloop|(qs & r1 & _ & ?)]%bind_Raise; [|done].
  eapply for_append_no_Raise in Hloop; [done|].
  intros i r1. apply make_question_no_Raise, sentences_of_nonempty.
Qed.

(** The generator hangs as soon as its first question is starved. *)
Lemma fallback_starved univ fuel title summary clean_text sections r
    sentence sentences :
  sentences_of U title summary clean_text = sentence :: sentences →
  let words := word_pool U list_of_set (sentence :: sentences) in
  words ≠ [] → length univ < 4 → words ⊆ univ →
  (∀ c, correct_for U title sentence c → c ∈ univ) →
  _fallback_generate_from_text U list_of_set fuel title summary clean_text sections r
    = Timeout.
Proof.
  intros Hs words Hne Hlen Hwords Hcorrect.
  unfold _fallback_generate_from_text. rewrite Hs. apply bind_Timeout. left.
  pose proof (num_q_of_bounds (sentence :: sentences)) as [Hq _].
  destruct (num_q_of _) as [|n]; [lia|]. simpl.
  apply bind_Timeout. left.
  by eapply (make_question_starved U univ).
Qed.

End GeneratorFacts.

Section GeneratorProgress.
Variable U : unicode.
Variable list_of_set : gset str → list str.
Hypothesis list_of_set_perm : ∀ X, list_of_set X ≡ₚ elements X.
Implicit Types (title summary clean_text : str) (sections : list str).

(** On a fair tape the generator returns when the pool is empty or holds at
    least four words, and more fuel does not change what it returns. *)
Lemma fallback_fair title summary clean_text sections r :
  let words := word_pool U list_of_set (sentences_of U title summary clean_text) in
  fair (tape r) → words = [] ∨ 4 ≤ length words →
  ∃ fuel Q k, ∀ fuel', fuel ≤ fuel' →
    _fallback_generate_from_text U list_of_set fuel' title summary clean_text
      sections r = Ret (Q, advance k r).
Proof.
  intros words Hfair Hpool. unfold _fallback_generate_from_text.
  destruct (for_append_fair
    (λ fuel, make_question U fuel title summary
               (sentences_of U title summary clean_text) words)
    (seq 0 (num_q_of (sentences_of U title summary clean_text))) [] r)
    as (fuel & qs & k & Hqs); [|done|].
  { intros i r1 Hr1. apply make_question_fair; try done.
    - apply sentences_of_nonempty.
    - by apply word_pool_NoDup. }
  eexists fuel, _, k. intros fuel' Hfuel.
  by rewrite (bind_step _ _ _ _ _ (Hqs fuel' Hfuel)).
Qed.


End GeneratorProgress.

(** ** Properties of the fallback generator *)

Lemma Forall2_seq_Forall {B} (P : nat → B → Prop) (R : B → Prop) n m (l : list B) :
  (∀ i y, P i y → R y) → Forall2 P (seq n m) l → Forall R l.
Proof.
  intros HPR H. induction H; constructor; eauto.
Qed.
(** C1 (the code hangs where the claim promises a result).  On the article
    whose whole text is 'Albert Einstein was a physicist.' the pool holds
    the three words Einstein, Albert and Physicist and the answer of the
    first question is one of them, so the option loop can never collect four
    distinct options: for every enumeration of the pool, every tape and
    every amount of fuel the generator is still running, whatever the
    character tables say beyond ASCII. *)
Theorem fallback_hangs_on_short_article (U : unicode)
    (list_of_set : gset str → list str)
    (list_of_set_perm : ∀ X, list_of_set X ≡ₚ elements X) fuel r :
  _fallback_generate_from_text U list_of_set fuel (py "Albert Einstein")
    (py "Albert Einstein was a physicist.")
    (py "Albert Einstein was a physicist.") [] r
  = Timeout.
Proof.
  assert (elements (word_set U [py "Albert Einstein was a physicist"])
          = [py "Physicist"; py "Albert"; py "Einstein"]) as Hel
    by (vm_compute; reflexivity).
  apply (fallback_starved U list_of_set [py "Physicist"; py "Albert"; py "Einstein"]
           _ _ _ _ _ _ (py "Albert Einstein was a physicist") []).
  - vm_compute. reflexivity.
  - intros Hnil%(f_equal length). revert Hnil.
    rewrite (word_pool_length U list_of_set list_of_set_perm).
    unfold size, set_size. simpl. rewrite Hel. done.
  - simpl. lia.
  - intros w Hw%(word_pool_elem U list_of_set list_of_set_perm).
    apply elem_of_elements in Hw. by rewrite Hel in Hw.
  - intros c [Hc _]. revert Hc.
    replace (candidates_of U (py "Albert Einstein was a physicist"))
      with [py "Albert"; py "Einstein"] by (vm_compute; reflexivity).
    rewrite !elem_of_cons. intros [->| [->|[]%elem_of_nil]]; [done|tauto|tauto].
Qed.

(** The hang, with the pool enumerated by [elements], on the tape 0, 1, 2, ...
    and a thousand iterations allowed. *)
Lemma fallback_hangs_on_short_article_witness :
  _fallback_generate_from_text latin1 elements 1000 (py "Albert Einstein")
    (py "Albert Einstein was a physicist.")
    (py "Albert Einstein was a physicist.") [] rng0
  = Timeout.
Proof.
  apply (fallback_hangs_on_short_article latin1 elements). intros X. reflexivity.
Defined.

(** C2.  Whenever the fallback generator returns, every question of the
    quiz has exactly four options, the four are pairwise distinct, and the
    answer is one of them. *)
Theorem fallback_options_valid (U : unicode)
    (list_of_set : gset str → list str) fuel title summary clean_text
    sections r Q r' :
  _fallback_generate_from_text U list_of_set fuel title summary clean_text
    sections r = Ret (Q, r') →
  Forall (λ q, length q.(options) = 4 ∧ NoDup q.(options) ∧
               q.(answer) ∈ q.(options)) Q.(quiz).
Proof.
  intros (_ & _ & _ & Hquiz)%fallback_Ret.
  eapply Forall2_seq_Forall; [|done].
  intros i q (sentence & _ & Hq). simpl.
  split_and!; [apply Hq..].
Qed.

(** A run that returns, and its options. *)
Lemma fallback_options_valid_witness :
  ∃ Q r',
    _fallback_generate_from_text latin1 elements 10 (py "Foo") [] [] [] rng0
    = Ret (Q, r') ∧
    Forall (λ q, length q.(options) = 4 ∧ NoDup q.(options) ∧
                 q.(answer) ∈ q.(options)) Q.(quiz).
Proof.
  eexists _, _. split; [vm_compute; reflexivity|].
  eapply (fallback_options_valid latin1 elements 10 (py "Foo") [] [] [] rng0).
  vm_compute. reflexivity.
Defined.

Lemma num_q_of_clamp sentences :
  num_q_of sentences = clamp (length sentences `div` 3) 5 7.
Proof. unfold num_q_of, clamp. lia. Qed.

(** Every quiz the generator returns has [num_q] questions, so between five
    and seven. *)
Lemma fallback_question_count (U : unicode)
    (list_of_set : gset str → list str) fuel title summary clean_text
    sections r Q r' :
  _fallback_generate_from_text U list_of_set fuel title summary clean_text
    sections r = Ret (Q, r') →
  length Q.(quiz)
  = clamp (length (sentences_of U title summary clean_text) `div` 3) 5 7 ∧
  5 ≤ length Q.(quiz) ≤ 7.
Proof.
  intros (_ & _ & _ & Hquiz)%fallback_Ret.
  apply Forall2_length in Hquiz. rewrite length_seq in Hquiz.
  rewrite <-Hquiz, <-num_q_of_clamp. split; [done|apply num_q_of_bounds].
Qed.

(** C3 (the code hangs where the claim promises five questions).  With
    empty text, summary and sections the title is the only sentence; for the
    title 'Albert Einstein' the pool is the two words of the title, the
    option loop never reaches four options, and no quiz is produced at all:
    the generator is still running for every enumeration of the pool, every
    tape and every amount of fuel. *)
Theorem fallback_hangs_on_bare_two_word_title (U : unicode)
    (list_of_set : gset str → list str)
    (list_of_set_perm : ∀ X, list_of_set X ≡ₚ elements X) fuel r :
  sentences_of U (py "Albert Einstein") [] [] = [py "Albert Einstein"] ∧
  num_q_of (sentences_of U (py "Albert Einstein") [] []) = 5 ∧
  _fallback_generate_from_text U list_of_set fuel (py "Albert Einstein") [] [] [] r
  = Timeout.
Proof.
  split; [vm_compute; reflexivity|]. split; [vm_compute; reflexivity|].
  assert (elements (word_set U [py "Albert Einstein"])
          = [py "Albert"; py "Einstein"]) as Hel
    by (vm_compute; reflexivity).
  apply (fallback_starved U list_of_set [py "Albert"; py "Einstein"]
           _ _ _ _ _ _ (py "Albert Einstein") []).
  - vm_compute. reflexivity.
  - intros Hnil%(f_equal length). revert Hnil.
    rewrite (word_pool_length U list_of_set list_of_set_perm).
    unfold size, set_size. simpl. rewrite Hel. done.
  - simpl. lia.
  - intros w Hw%(word_pool_elem U list_of_set list_of_set_perm).
    apply elem_of_elements in Hw. by rewrite Hel in Hw.
  - intros c [Hc _]. revert Hc.
    replace (candidates_of U (py "Albert Einstein"))
      with [py "Albert"; py "Einstein"] by (vm_compute; reflexivity).
    rewrite !elem_of_cons. intros [->| [->|[]%elem_of_nil]]; [done|tauto|tauto].
Qed.

(** The same on the tape 0, 1, 2, ... with a thousand iterations allowed. *)
Lemma fallback_hangs_on_bare_two_word_title_witness :
  sentences_of latin1 (py "Albert Einstein") [] [] = [py "Albert Einstein"] ∧
  num_q_of (sentences_of latin1 (py "Albert Einstein") [] []) = 5 ∧
  _fallback_generate_from_text latin1 elements 1000 (py "Albert Einstein") [] [] [] rng0
  = Timeout.
Proof.
  apply (fallback_hangs_on_bare_two_word_title latin1 elements).
  intros X. reflexivity.
Defined.



(** ** Facts about the string primitives *)

(** [s[:n]] is the first [n] characters of [s], all of [s] when it is
    shorter. *)
Lemma slice_to_spec n s : first_chars n s (slice_to n s).
Proof.
  exists (drop n s). unfold slice_to.
  split; [by rewrite take_drop|by rewrite length_take].
Qed.

Lemma lstrip_by_spec p s :
  ∃ pre, s = pre ++ lstrip_by p s ∧ Forall (λ c, p c = true) pre ∧
         ∀ c, head (lstrip_by p s) = Some c → p c = false.
Proof.
  induction s as [|a s (pre & Hs & Hpre & Hhead)]; simpl.
  { exists []. by split_and!. }
  destruct (p a) eqn:Ea.
  - exists (a :: pre). split_and!; [by rewrite Hs at 1|by constructor|done].
  - exists []. split_and!; [done|constructor|]. by intros c [= <-].
Qed.

(** [s.rstrip()] removes the longest suffix made of white space. *)
Lemma rstrip_by_spec p s : rstripped p s (rstrip_by p s).
Proof.
  induction s as [|a s (post & Hs & Hpost & Hlast)]; simpl.
  { exists []. by split_and!. }
  destruct (negb (truthy (rstrip_by p s)) && p a) eqn:E.
  - apply andb_prop in E as [Hempty Ha].
    destruct (rstrip_by p s); [|done]. simpl in Hs. subst post.
    exists (a :: s). split_and!; [done|by constructor|done].
  - exists post. split_and!; [by rewrite Hs at 1|done|].
    destruct (rstrip_by p s) as [|b r] eqn:Er.
    + simpl in E. by intros c [= <-].
    + intros c Hc. apply Hlast. by rewrite last_cons_cons in Hc.
Qed.

Lemma head_rstrip_by p s c : head (rstrip_by p s) = Some c → head s = Some c.
Proof.
  destruct s as [|a s]; [done|]. simpl.
  by destruct (negb (truthy (rstrip_by p s)) && p a).
Qed.

(** [s.strip()] and [s.strip(chars)] remove the longest prefix and the
    longest suffix made of the characters to strip. *)
Lemma strip_by_spec p s : stripped p s (strip_by p s).
Proof.
  unfold strip_by.
  destruct (lstrip_by_spec p s) as (pre & Hs & Hpre & Hhead).
  destruct (rstrip_by_spec p (lstrip_by p s)) as (post & Ht & Hpost & Hlast).
  exists pre, post. split_and!; [|done|done| |done].
  - by rewrite <-Ht.
  - intros c Hc%head_rstrip_by. by apply Hhead.
Qed.

Lemma strip_chars_spec t : stripped is_punctuation t (strip_chars punctuation t).
Proof. apply (strip_by_spec is_punctuation). Qed.

Lemma split_by_cons p c s :
  split_by p (c :: s) =
  if p c then split_by p s
  else match s with
       | [] => [[c]]
       | c' :: _ =>
           if p c' then [c] :: split_by p s
           else match split_by p s with
                | t :: ts => (c :: t) :: ts
                | [] => [[c]]
                end
       end.
Proof. done. Qed.

Lemma tokens_of_sep p c s toks :
  p c = true → tokens_of p s toks → tokens_of p (c :: s) toks.
Proof.
  intros Hc [seps Hseps|seps t rest toks' Hseps Ht Hnone Hrest Htoks].
  - apply tokens_none. by constructor.
  - apply (tokens_next p (c :: seps)); try done. by constructor.
Qed.

(** [s.split()] gives the tokens of [s], in order. *)
Lemma split_by_spec p s : tokens_of p s (split_by p s).
Proof.
  induction s as [|c s IH]; [by apply tokens_none|].
  rewrite split_by_cons. destruct (p c) eqn:Hc.
  { by apply tokens_of_sep. }
  destruct s as [|c' s'].
  { apply (tokens_next p [] [c] [] []);
      [constructor|done|by repeat constructor|done|by apply tokens_none]. }
  destruct (p c') eqn:Hc'.
  { apply (tokens_next p [] [c] (c' :: s'));
      [constructor|done|by repeat constructor|by intros ? [= <-]|done]. }
  inversion IH as [seps Hseps Heq|seps t rest toks Hseps Ht Hnone Hrest Htoks Heq Htk].
  - subst seps. apply Forall_cons in Hseps as [? _]. congruence.
  - destruct seps as [|b seps].
    + apply (tokens_next p [] (c :: t) rest toks);
        [constructor|done|by constructor|done|done].
    + simpl in Heq. injection Heq as -> _.
      apply Forall_cons in Hseps as [? _]. congruence.
Qed.

Lemma split_ws_spec U s : tokens_of (is_space U) s (split_ws U s).
Proof. apply split_by_spec. Qed.

(** *** The descriptions determine the text *)

(** Each of the relations [first_chars], [rstripped], [stripped] and
    [tokens_of] holds of one result only, so that it says what the
    operation returns. *)
Lemma first_chars_unique n s t1 t2 :
  first_chars n s t1 → first_chars n s t2 → t1 = t2.
Proof.
  intros (r1 & H1 & L1) (r2 & H2 & L2).
  assert (t1 ++ r1 = t2 ++ r2) as Heq by congruence.
  apply app_inj_1 in Heq as [? _]; [done|congruence].
Qed.

Lemma class_run_end (p : N → bool) (t1 r1 t2 r2 : str) :
  t1 ++ r1 = t2 ++ r2 →
  Forall (λ c, p c = true) r1 → (∀ c, last t2 = Some c → p c = false) →
  ∃ k, t1 = t2 ++ k.
Proof.
  intros Heq Hr1 Hlast. apply app_eq_inv in Heq as [(k & -> & _)|(k & -> & ->)].
  { by exists k. }
  destruct (last k) as [c|] eqn:Hk.
  - exfalso. assert (p c = false) as Hf.
    { apply Hlast. by rewrite last_app, Hk. }
    apply Forall_app in Hr1 as [Hk1 _]. rewrite Forall_forall in Hk1.
    rewrite Hk1 in Hf; [done|]. by apply last_Some_elem_of.
  - apply last_None in Hk as ->. exists []. by rewrite !app_nil_r.
Qed.

Lemma rstripped_unique p s t1 t2 :
  rstripped p s t1 → rstripped p s t2 → t1 = t2.
Proof.
  intros (r1 & H1 & F1 & L1) (r2 & H2 & F2 & L2).
  assert (t1 ++ r1 = t2 ++ r2) as Heq by congruence.
  destruct (class_run_end p t1 r1 t2 r2) as [k Hk]; [done..|].
  destruct (class_run_end p t2 r2 t1 r1) as [k' Hk']; [done..|].
  assert (length k = 0) as Hlen.
  { apply (f_equal length) in Hk, Hk'. rewrite length_app in Hk, Hk'. lia. }
  destruct k; [|done]. by rewrite app_nil_r in Hk.
Qed.

Lemma class_run_start (p : N → bool) (pre1 pre2 : str) c1 c2 (r1 r2 : str) :
  pre1 ++ c1 :: r1 = pre2 ++ c2 :: r2 →
  Forall (λ c, p c = true) pre1 → Forall (λ c, p c = true) pre2 →
  p c1 = false → p c2 = false →
  pre1 = pre2 ∧ c1 :: r1 = c2 :: r2.
Proof.
  intros Heq H1 H2 Hc1 Hc2.
  apply app_eq_inv in Heq as [(k & -> & Hk)|(k & -> & Hk)].
  - destruct k as [|d k].
    + rewrite app_nil_r. split; [done|]. by rewrite Hk.
    + injection Hk as <- _. apply Forall_app in H1 as [_ [? _]%Forall_cons].
      congruence.
  - destruct k as [|d k].
    + rewrite app_nil_r. split; [done|]. by rewrite Hk.
    + injection Hk as <- _. apply Forall_app in H2 as [_ [? _]%Forall_cons].
      congruence.
Qed.

Lemma stripped_unique p s t1 t2 :
  stripped p s t1 → stripped p s t2 → t1 = t2.
Proof.
  intros (pre1 & post1 & H1 & Fa1 & Fb1 & Hh1 & Hl1)
         (pre2 & post2 & H2 & Fa2 & Fb2 & Hh2 & Hl2).
  assert (∀ (t : str) pre post c u pre' post',
            s = pre ++ [] ++ post → Forall (λ c, p c = true) pre →
            Forall (λ c, p c = true) post →
            s = pre' ++ (c :: u) ++ post' → p c = false → False) as Hempty.
  { intros _ pre post c u pre' post' -> Fa Fb Heq Hc.
    assert (c ∈ pre ++ [] ++ post) as Hin.
    { rewrite Heq. apply elem_of_app. right. by left. }
    simpl in Hin. apply elem_of_app in Hin as [Hin|Hin].
    - rewrite Forall_forall in Fa. rewrite (Fa c Hin) in Hc. done.
    - rewrite Forall_forall in Fb. rewrite (Fb c Hin) in Hc. done. }
  destruct t1 as [|c1 u1], t2 as [|c2 u2]; [done| | |].
  - exfalso. by apply (Hempty [] pre1 post1 c2 u2 pre2 post2); try apply Hh2.
  - exfalso. by apply (Hempty [] pre2 post2 c1 u1 pre1 post1); try apply Hh1.
  - assert (pre1 ++ c1 :: (u1 ++ post1) = pre2 ++ c2 :: (u2 ++ post2)) as Heq
      by (simpl in H1, H2; congruence).
    apply (class_run_start p) in Heq as [_ Heq];
      [|done|done|by apply Hh1|by apply Hh2].
    apply (rstripped_unique p ((c1 :: u1) ++ post1)).
    + by exists post1.
    + exists post2. split_and!; [exact Heq|done|done].
Qed.

Lemma token_run (p : N → bool) (t1 r1 t2 r2 : str) :
  t1 ++ r1 = t2 ++ r2 →
  Forall (λ c, p c = false) t1 → (∀ c, head r2 = Some c → p c = true) →
  ∃ k, t2 = t1 ++ k.
Proof.
  intros Heq Ht1 Hr2. apply app_eq_inv in Heq as [(k & -> & Hk)|(k & -> & _)].
  - destruct k as [|d k].
    + exists []. by rewrite !app_nil_r.
    + exfalso. assert (p d = true) as Hd by (apply Hr2; by rewrite Hk).
      apply Forall_app in Ht1 as [_ [? _]%Forall_cons]. congruence.
  - by exists k.
Qed.

Lemma tokens_of_unique p s toks1 toks2 :
  tokens_of p s toks1 → tokens_of p s toks2 → toks1 = toks2.
Proof.
  intros H1. revert toks2.
  induction H1 as [seps1 Hs1|seps1 t1 rest1 toks1 Hs1 Hne1 Ht1 Hr1 Htoks1 IH];
    intros toks2 H2.
  - inversion H2 as [|seps2 t2 rest2 toks2' Hs2 Hne2 Ht2 Hr2 Htoks2 Heq]; [done|].
    exfalso. destruct t2 as [|c t2']; [done|].
    apply Forall_cons in Ht2 as [Hc _].
    subst seps1. apply Forall_app in Hs1 as [_ [Hc' _]%Forall_cons].
    congruence.
  - inversion H2 as [seps2 Hs2 Heq|seps2 t2 rest2 toks2' Hs2 Hne2 Ht2 Hr2 Htoks2 Heq].
    + exfalso. destruct t1 as [|c t1']; [done|].
      apply Forall_cons in Ht1 as [Hc _].
      subst seps2. apply Forall_app in Hs2 as [_ [Hc' _]%Forall_cons].
      congruence.
    + destruct t1 as [|c1 u1]; [done|]. destruct t2 as [|c2 u2]; [done|].
      pose proof Ht1 as [Hc1 _]%Forall_cons.
      pose proof Ht2 as [Hc2 _]%Forall_cons.
      apply (class_run_start p) in Heq as [_ Heq]; [|done..].
      change ((c2 :: u2) ++ rest2 = (c1 :: u1) ++ rest1) in Heq.
      destruct (token_run p (c1 :: u1) rest1 (c2 :: u2) rest2) as [k Hk];
        [done..|].
      destruct (token_run p (c2 :: u2) rest2 (c1 :: u1) rest1) as [k' Hk'];
        [done..|].
      assert (length k = 0) as Hlen.
      { apply (f_equal length) in Hk, Hk'. rewrite length_app in Hk, Hk'. lia. }
      destruct k; [|done]. rewrite app_nil_r in Hk. rewrite Hk in Heq |- *.
      apply app_inv_head in Heq. subst rest2. f_equal. by apply IH.
Qed.

Lemma follows_cased_cons U prev c s i :
  follows_cased U prev (c :: s) (S i) ↔ follows_cased U (is_cased U c) s i.
Proof.
  destruct i as [|j]; simpl; [|done]. split.
  - by intros (d & [= <-] & ?).
  - intros ?. by exists c.
Qed.

Lemma istitle_go_spec U s prev cased :
  istitle_go U prev cased s = true ↔
  (cased = true ∨ ∃ c, c ∈ s ∧ is_cased U c = true) ∧
  ∀ i c, s !! i = Some c → is_cased U c = true →
         (is_upper U c = true ↔ ¬ follows_cased U prev s i).
Proof.
  revert prev cased. induction s as [|a s IH]; intros prev cased.
  { simpl. split.
    - intros ->. split; [by left|]. by intros i c [=].
    - intros [[->|(c & []%elem_of_nil & _)] _]. done. }
  assert (∀ Q : nat → N → Prop,
            (∀ i c, (a :: s) !! i = Some c → Q i c) ↔
            Q 0 a ∧ ∀ i c, s !! i = Some c → Q (S i) c) as Hpos.
  { intros Q. split.
    - intros H. split; [by apply H|]. intros i c Hi. by apply H.
    - intros [H0 HS] [|i] c Hi; [by injection Hi as <-|by apply HS]. }
  rewrite Hpos. clear Hpos.
  setoid_rewrite follows_cased_cons. setoid_rewrite elem_of_cons.
  assert (is_cased U a = is_upper U a || is_lower U a) as Ha by done.
  remember (is_cased U a) as b eqn:Hb. clear Hb.
  simpl istitle_go. simpl follows_cased.
  destruct (is_upper U a) eqn:Hu; [|destruct (is_lower U a) eqn:Hl];
    simpl in Ha; subst b.
  - destruct prev.
    + split; [done|]. intros (_ & H0 & _).
      destruct (H0 eq_refl) as [H1 _]. by destruct (H1 eq_refl).
    + rewrite IH. split.
      * intros [_ H]. split_and!; [|done|done].
        right. exists a. split; [by left|]. unfold is_cased. by rewrite Hu.
      * intros (_ & _ & H). split; [by left|done].
  - destruct prev.
    + rewrite IH. split.
      * intros [_ H]. split_and!; [| |done].
        -- right. exists a. split; [by left|]. unfold is_cased. by rewrite Hu, Hl.
        -- intros _. split; [done|]. intros Hx. by destruct Hx.
      * intros (_ & _ & H). split; [by left|done].
    + split; [done|]. intros (_ & H0 & _).
      destruct (H0 eq_refl) as [_ H2]. by apply H2.
  - rewrite IH. split.
    + intros [Hc H]. split_and!; [|done|done].
      destruct Hc as [?|(c & ? & ?)]; [by left|right].
      exists c. split; [by right|done].
    + intros (Hc & _ & H). split; [|done].
      destruct Hc as [?|(c & [->|?] & Hcased)]; [by left| |right; by exists c].
      unfold is_cased in Hcased. by rewrite Hu, Hl in Hcased.
Qed.

(** [s.istitle()] is title case as said position by position. *)
Lemma istitle_spec U s : istitle U s = true ↔ title_cased U s.
Proof.
  unfold istitle, title_cased. rewrite istitle_go_spec. split.
  - by intros [[?|?] ?].
  - intros [? ?]. split; [by right|done].
Qed.

(** A title-cased string has an uppercase character. *)
Lemma title_cased_upper U s :
  title_cased U s → ∃ c, c ∈ s ∧ is_upper U c = true.
Proof.
  intros [(c & Hc & Hcased) Hpos].
  apply list_elem_of_lookup_1 in Hc as [i Hi]. revert c Hi Hcased.
  induction i as [|i IH]; intros c Hi Hcased.
  - exists c. split; [by eapply list_elem_of_lookup_2|].
    apply (Hpos 0 c Hi Hcased). simpl. done.
  - destruct (is_upper U c) eqn:Hu.
    { exists c. split; [by eapply list_elem_of_lookup_2|done]. }
    destruct (lookup_lt_is_Some_2 s i) as [d Hd].
    { apply lookup_lt_Some in Hi. lia. }
    destruct (is_cased U d) eqn:Hdc; [by apply (IH d)|].
    exfalso. pose proof (Hpos (S i) c Hi Hcased) as [_ H].
    rewrite H in Hu; [done|]. simpl. intros (d' & ? & ?). congruence.
Qed.

Lemma Forall_lstrip_by (P : N → Prop) q s : Forall P s → Forall P (lstrip_by q s).
Proof.
  induction 1 as [|c s Hc Hs IH]; [done|]. simpl.
  destruct (q c); [done|by constructor].
Qed.

Lemma Forall_rstrip_by (P : N → Prop) q s : Forall P s → Forall P (rstrip_by q s).
Proof.
  induction 1 as [|c s Hc Hs IH]; [done|]. simpl.
  destruct (negb (truthy (rstrip_by q s)) && q c); [done|by constructor].
Qed.

Lemma Forall_strip_by (P : N → Prop) q s : Forall P s → Forall P (strip_by q s).
Proof. intros. by apply Forall_rstrip_by, Forall_lstrip_by. Qed.

Lemma Forall_split_by (P : N → Prop) q s :
  Forall P s → Forall (Forall P) (split_by q s).
Proof.
  intros Hs. induction (split_by_spec q s) as [seps|seps t rest toks _ _ _ _ _ IH].
  - constructor.
  - apply Forall_app in Hs as [_ [Ht Hrest]%Forall_app].
    constructor; [done|by apply IH].
Qed.

Lemma candidates_of_spec U sentence c :
  c ∈ candidates_of U sentence ↔
  ∃ t, t ∈ split_ws U sentence ∧ c = strip_chars punctuation t ∧
       title_cased U c ∧ 3 < length c.
Proof.
  unfold candidates_of. rewrite list_elem_of_filter, list_elem_of_fmap.
  rewrite andb_True, !Is_true_true, Nat.ltb_lt, istitle_spec. split.
  - intros ([Ht Hl] & t & -> & Hin). by exists t.
  - intros (t & Hin & -> & Ht & Hl). split; [done|]. by exists t.
Qed.

(** A sentence without an uppercase character has no candidate. *)
Lemma candidates_of_no_upper U sentence :
  Forall (λ ch, is_upper U ch = false) sentence → candidates_of U sentence = [].
Proof.
  intros Hs. apply elem_of_nil_inv.
  intros c (t & Ht & -> & (ch & Hch & Hup)%title_cased_upper & _)%candidates_of_spec.
  pose proof (Forall_split_by _ (is_space U) _ Hs) as Hall.
  rewrite Forall_forall in Hall. specialize (Hall t Ht).
  apply (Forall_strip_by _ (λ c, bool_decide (c ∈ punctuation))) in Hall.
  rewrite Forall_forall in Hall. specialize (Hall ch Hch). simpl in Hall.
  congruence.
Qed.

(** C8.  The choice of the correct answer always returns, never raising.
    The candidates are the tokens of the source sentence, its maximal runs
    of characters that are not white space, each without the characters
    comma, full stop, parentheses and double quote at its two ends, that are
    title-cased and longer than three characters.  The answer is one of the
    candidates when there is one; otherwise it is the first token of the
    sentence, or the article title when the sentence has no token.  A
    sentence without an uppercase character has no candidate, so its first
    word is the answer.  The answer of every question of a returned quiz is
    chosen that way from the question's source sentence. *)
Theorem answer_selection (U : unicode) (list_of_set : gset str → list str)
    fuel title summary clean_text sections :
  (∀ s, tokens_of (is_space U) s (split_ws U s)) ∧
  (∀ t, stripped is_punctuation t (strip_chars punctuation t)) ∧
  (∀ t, istitle U t = true ↔ title_cased U t) ∧
  (∀ sentence c,
     c ∈ candidates_of U sentence ↔
     ∃ t, t ∈ split_ws U sentence ∧ c = strip_chars punctuation t ∧
          title_cased U c ∧ 3 < length c) ∧
  (∀ sentence r, ∃ c k,
     pick_correct U title sentence r = Ret (c, advance k r) ∧
     (candidates_of U sentence ≠ [] → c ∈ candidates_of U sentence) ∧
     (candidates_of U sentence = [] →
      c = match split_ws U sentence with p :: _ => p | [] => title end) ∧
     (Forall (λ ch, is_upper U ch = false) sentence →
      c = match split_ws U sentence with p :: _ => p | [] => title end)) ∧
  (∀ r Q r',
     _fallback_generate_from_text U list_of_set fuel title summary clean_text
       sections r = Ret (Q, r') →
     let sentences := sentences_of U title summary clean_text in
     Forall2 (λ i q, ∃ sentence,
                source_sentence sentences i = Some sentence ∧
                (candidates_of U sentence ≠ [] →
                 q.(answer) ∈ candidates_of U sentence) ∧
                (candidates_of U sentence = [] →
                 q.(answer) = match split_ws U sentence with
                              | p :: _ => p
                              | [] => title
                              end))
             (seq 0 (num_q_of sentences)) Q.(quiz)).
Proof.
  assert (∀ sentence, default title (head (split_ws U sentence))
                      = match split_ws U sentence with p :: _ => p | [] => title end)
    as Hhead by (intros sentence; by destruct (split_ws U sentence)).
  split_and!.
  - apply split_ws_spec.
  - apply strip_chars_spec.
  - apply istitle_spec.
  - apply candidates_of_spec.
  - intros sentence r.
    destruct (pick_correct_eq U title sentence r) as (c & k & Hrun & Hsome & Hnone).
    exists c, k. rewrite <-Hhead. split_and!; [done..|].
    intros Hlow. by apply Hnone, candidates_of_no_upper.
  - intros r Q r' (_ & _ & _ & Hquiz)%fallback_Ret sentences.
    eapply Forall2_impl; [done|].
    intros i q (sentence & Hsrc & Hq). exists sentence.
    rewrite <-Hhead. destruct (qf_answer _ _ _ _ _ _ Hq). done.
Qed.

(** Two sentences.  A lowercase pangram as the whole article: every answer
    is its first word.  A sentence whose only capital is an accented one:
    the word that starts with it is the answer. *)
Lemma answer_selection_witness :
  (∃ Q r',
     _fallback_generate_from_text latin1 elements 20 (py "Fox") []
       (pangram ++ py ".") [] rng0 = Ret (Q, r') ∧
     Forall (λ q, q.(answer) = py "the") Q.(quiz)) ∧
  candidates_of latin1 emile_sentence = [emile] ∧
  ∃ k, pick_correct latin1 (py "Fox") emile_sentence rng0
       = Ret (emile, advance k rng0).
Proof.
  destruct (answer_selection latin1 elements 20 (py "Fox") []
              (pangram ++ py ".") []) as (_ & _ & _ & _ & Hpick & H).
  split_and!.
  - eexists _, _. split; [vm_compute; reflexivity|].
    specialize (H rng0 _ _ ltac:(vm_compute; reflexivity)).
    eapply Forall2_seq_Forall; [|exact H].
    intros i q (sentence & Hsrc & _ & Hnone). simpl.
    assert (sentence = pangram) as ->.
    { revert Hsrc. unfold source_sentence.
      replace (sentences_of latin1 (py "Fox") [] (pangram ++ py "."))
        with [pangram] by (vm_compute; reflexivity).
      destruct i as [|[|i]]; simpl; congruence. }
    rewrite Hnone; vm_compute; reflexivity.
  - vm_compute. reflexivity.
  - destruct (Hpick emile_sentence rng0) as (c & k & Hrun & Hsome & _).
    exists k. rewrite Hrun. do 2 f_equal.
    assert (candidates_of latin1 emile_sentence = [emile]) as Hc
      by (vm_compute; reflexivity).
    rewrite Hc in Hsome. specialize (Hsome ltac:(done)).
    by apply list_elem_of_singleton in Hsome.
Defined.

(** C9.  In every quiz the generator returns, the question with index [i]
    is built from its source sentence (the sentence with index [i], or the
    first one when there are not that many).  Its text is the first 200
    characters of the sentence without the white space at their end, or,
    when that is shorter than 10 characters, the first 200 characters of the
    summary (of the title when the summary is empty), followed by a question
    mark.  Its explanation is the text Based on the article text, a colon, a
    space and an apostrophe, then the first 120 characters of the sentence
    without the white space at their two ends, then an apostrophe and a full
    stop.  Lengths are counted in characters. *)
Theorem question_and_explanation_text (U : unicode)
    (list_of_set : gset str → list str)
    fuel title summary clean_text sections r Q r' :
  _fallback_generate_from_text U list_of_set fuel title summary clean_text
    sections r = Ret (Q, r') →
  let sentences := sentences_of U title summary clean_text in
  Forall2 (λ i q, ∃ sentence cut trimmed substitute cut120 quoted,
             sentences !! (if i <? length sentences then i else 0) = Some sentence ∧
             first_chars 200 sentence cut ∧
             rstripped (is_space U) cut trimmed ∧
             first_chars 200 (if truthy summary then summary else title)
               substitute ∧
             q.(question) =
               (if length trimmed <? 10 then substitute else trimmed) ++ py "?" ∧
             first_chars 120 sentence cut120 ∧
             stripped (is_space U) cut120 quoted ∧
             q.(explanation) =
               py "Based on the article text: '" ++ quoted ++ py "'.")
          (seq 0 (num_q_of sentences)) Q.(quiz).
Proof.
  intros (_ & _ & _ & Hquiz)%fallback_Ret sentences.
  eapply Forall2_impl; [done|].
  intros i q (sentence & Hsrc & Hq).
  exists sentence, (slice_to 200 sentence), (rstrip U (slice_to 200 sentence)),
    (slice_to 200 (or_else summary title)), (slice_to 120 sentence),
    (strip U (slice_to 120 sentence)).
  split_and!.
  - done.
  - apply slice_to_spec.
  - apply rstrip_by_spec.
  - apply slice_to_spec.
  - rewrite (qf_question _ _ _ _ _ _ Hq). unfold question_text.
    by destruct (length (rstrip U (slice_to 200 sentence)) <? 10).
  - apply slice_to_spec.
  - apply strip_by_spec.
  - apply Hq.
Qed.

(** The texts of the questions built from the pangram; and a sentence of
    nine accented characters, too short to be a question, gives way to the
    title. *)
Lemma question_and_explanation_text_witness :
  (∃ Q r',
     _fallback_generate_from_text latin1 elements 20 (py "Fox") []
       (pangram ++ py ".") [] rng0 = Ret (Q, r') ∧
     Forall (λ q, q.(question) = pangram ++ py "?" ∧
                  q.(explanation) =
                  py "Based on the article text: '" ++ pangram ++ py "'.")
            Q.(quiz) ∧
     Forall2 (λ i q, ∃ sentence cut trimmed substitute cut120 quoted,
                [pangram] !! (if i <? 1 then i else 0) = Some sentence ∧
                first_chars 200 sentence cut ∧
                rstripped (is_space latin1) cut trimmed ∧
                first_chars 200 (py "Fox") substitute ∧
                q.(question) =
                  (if length trimmed <? 10 then substitute else trimmed)
                  ++ py "?" ∧
                first_chars 120 sentence cut120 ∧
                stripped (is_space latin1) cut120 quoted ∧
                q.(explanation) =
                  py "Based on the article text: '" ++ quoted ++ py "'.")
             (seq 0 5) Q.(quiz)) ∧
  ∃ Q r',
    _fallback_generate_from_text latin1 elements 20 (py "T") []
      (vowels ++ py ".") [] rng0 = Ret (Q, r') ∧
    Forall (λ q, q.(question) = py "T?") Q.(quiz).
Proof.
  split.
  - eexists _, _. split; [vm_compute; reflexivity|]. split.
    + repeat constructor.
    + eapply (question_and_explanation_text latin1 elements 20 (py "Fox") []
                (pangram ++ py ".") [] rng0).
      vm_compute. reflexivity.
  - eexists _, _. split; [vm_compute; reflexivity|]. repeat constructor.
Defined.
(** ** Related topics *)

Lemma elem_of_dedup_first x l : x ∈ dedup_first l ↔ x ∈ l.
Proof.
  induction l as [|y l IH]; [done|]. simpl.
  rewrite !elem_of_cons, list_elem_of_filter, IH.
  destruct (decide (x = y)); tauto.
Qed.

Lemma NoDup_dedup_first l : NoDup (dedup_first l).
Proof.
  induction l as [|y l IH]; simpl; [constructor|].
  constructor; [|by apply NoDup_filter].
  rewrite list_elem_of_filter. tauto.
Qed.

Lemma length_dedup_first l : length (dedup_first l) ≤ length l.
Proof.
  induction l as [|y l IH]; simpl; [done|].
  pose proof (length_filter (λ z, z ≠ y) (dedup_first l)). lia.
Qed.

Lemma filter_comm_str (P R : str → Prop)
    `{!∀ x, Decision (P x)} `{!∀ x, Decision (R x)} (l : list str) :
  filter P (filter R l) = filter R (filter P l).
Proof.
  rewrite !list_filter_filter. apply list_filter_iff. tauto.
Qed.

Lemma filter_dedup_first (P : str → Prop) `{!∀ x, Decision (P x)} l :
  filter P (dedup_first l) = dedup_first (filter P l).
Proof.
  induction l as [|x l IH]; [done|]. simpl.
  rewrite !filter_cons. destruct (decide (P x)) as [HP|HP]; simpl.
  - by rewrite filter_comm_str, IH.
  - rewrite filter_comm_str, list_filter_filter_r; [done|].
    by intros y Hy ->.
Qed.

(** The two loops of lines 106-112, whatever list they start from. *)
Lemma add_section_eq acc x :
  add_section acc x = if decide (truthy x ∧ x ∉ acc) then acc ++ [x] else acc.
Proof.
  unfold add_section.
  destruct (truthy x); simpl; [|done].
  case_bool_decide; case_decide; first [done | tauto].
Qed.

Lemma add_keyword_eq acc w :
  add_keyword acc w =
  if decide ((w ∉ acc) ∧ length acc < 6) then acc ++ [w] else acc.
Proof.
  unfold add_keyword.
  destruct (length acc <? 6) eqn:E;
    [apply Nat.ltb_lt in E|apply Nat.ltb_ge in E];
    case_bool_decide; case_decide; simpl; first [done | tauto | lia].
Qed.

Lemma foldl_add_section acc l :
  foldl add_section acc l =
  acc ++ dedup_first (filter (λ s, truthy s ∧ s ∉ acc) l).
Proof.
  revert acc. induction l as [|x l IH]; intros acc; simpl.
  { by rewrite app_nil_r. }
  rewrite filter_cons, add_section_eq.
  destruct (decide (truthy x ∧ x ∉ acc)) as [Hx|Hx]; rewrite IH; [|done].
  simpl. rewrite <-app_assoc. simpl. do 2 f_equal.
  rewrite filter_dedup_first, list_filter_filter.
  f_equal. apply list_filter_iff. intros y.
  rewrite elem_of_app, list_elem_of_singleton. tauto.
Qed.

Lemma foldl_add_keyword acc l :
  foldl add_keyword acc l =
  acc ++ take (6 - length acc) (dedup_first (filter (λ w, w ∉ acc) l)).
Proof.
  revert acc. induction l as [|x l IH]; intros acc; simpl.
  { by rewrite take_nil, app_nil_r. }
  rewrite filter_cons, add_keyword_eq.
  destruct (decide ((x ∉ acc) ∧ length acc < 6)) as [[Hx Hlen]|Hx]; rewrite IH.
  - rewrite decide_True by done. rewrite <-app_assoc, length_app. simpl.
    replace (6 - length acc) with (S (6 - (length acc + 1))) by lia. simpl.
    do 3 f_equal.
    rewrite filter_dedup_first, list_filter_filter.
    f_equal. apply list_filter_iff. intros y.
    rewrite elem_of_app, list_elem_of_singleton. tauto.
  - destruct (decide (x ∉ acc)) as [Hnew|Hold]; [|done].
    assert (¬ length acc < 6) by tauto.
    replace (6 - length acc) with 0 by lia. done.
Qed.

Lemma related_of_spec sections words :
  related_of sections words = related_topics_spec sections words.
Proof.
  unfold related_of, related_topics_spec.
  rewrite foldl_add_keyword, foldl_add_section. simpl.
  rewrite filter_dedup_first.
  replace (filter (λ s, truthy s ∧ s ∉ []) (take 5 sections))
    with (filter (λ s, truthy s) (take 5 sections))
    by (apply list_filter_iff; intros s; rewrite elem_of_nil; tauto).
  done.
Qed.

Lemma related_topics_spec_length sections pool :
  length (related_topics_spec sections pool) ≤ 6.
Proof.
  unfold related_topics_spec.
  set (from_sections := dedup_first _).
  assert (length from_sections ≤ 5).
  { unfold from_sections. etrans; [apply length_dedup_first|].
    etrans; [apply length_filter|]. rewrite length_take. lia. }
  rewrite length_app, length_take. lia.
Qed.

Lemma related_topics_spec_NoDup sections pool :
  NoDup (related_topics_spec sections pool).
Proof.
  unfold related_topics_spec. apply NoDup_app. split_and!.
  - apply NoDup_dedup_first.
  - intros x Hx Hx'%subseteq_take. by apply list_elem_of_filter in Hx' as [? _].
  - eapply sublist_NoDup; [|apply sublist_take].
    apply NoDup_filter, NoDup_dedup_first.
Qed.

(** C6.  The related topics of every result are the first five sections
    without the empty and the repeated ones, followed, up to six topics in
    all, by those of the first six words of the pool that are not yet among
    the topics; so they are at most six, pairwise distinct, and for the
    sections History and Geography those two come first, in that order. *)
Theorem related_topics_built (U : unicode) (list_of_set : gset str → list str)
    fuel title summary clean_text sections r Q r' :
  _fallback_generate_from_text U list_of_set fuel title summary clean_text
    sections r = Ret (Q, r') →
  let pool := word_pool U list_of_set (sentences_of U title summary clean_text) in
  Q.(related_topics) = related_topics_spec sections pool ∧
  length Q.(related_topics) ≤ 6 ∧
  NoDup Q.(related_topics) ∧
  (sections = [py "History"; py "Geography"] →
   take 2 Q.(related_topics) = [py "History"; py "Geography"]).
Proof.
  intros (_ & _ & Hrel & _)%fallback_Ret pool.
  rewrite Hrel, related_of_spec. fold pool. split_and!.
  - done.
  - apply related_topics_spec_length.
  - apply related_topics_spec_NoDup.
  - intros ->. unfold related_topics_spec.
    replace (dedup_first (filter (λ s, truthy s)
                            (take 5 [py "History"; py "Geography"])))
      with [py "History"; py "Geography"] by (vm_compute; reflexivity).
    done.
Qed.

(** A run with the sections History and Geography. *)
Lemma related_topics_built_witness :
  ∃ Q r',
    _fallback_generate_from_text latin1 elements 30 (py "Albert Einstein") []
      einstein_text [py "History"; py "Geography"] rng0 = Ret (Q, r') ∧
    length Q.(related_topics) ≤ 6 ∧
    take 2 Q.(related_topics) = [py "History"; py "Geography"].
Proof.
  eexists _, _. split; [vm_compute; reflexivity|].
  edestruct (related_topics_built latin1 elements 30 (py "Albert Einstein") []
    einstein_text [py "History"; py "Geography"] rng0)
    as (_ & Hlen & _ & Hfirst).
  { vm_compute. reflexivity. }
  split; [exact Hlen|]. by apply Hfirst.
Defined.

(** ** The Wikipedia check *)

Lemma starts_with_spec sub s :
  starts_with sub s = true ↔ ∃ post, s = sub ++ post.
Proof.
  revert s. induction sub as [|a sub IH]; intros s; simpl.
  { split; [intros _; by exists s|done]. }
  destruct s as [|b s].
  { split; [done|]. by intros [post ?]. }
  case_decide as Hab.
  - subst b. rewrite IH. split.
    + intros [post ->]. by exists post.
    + intros [post [= ->]]. by exists post.
  - split; [done|]. intros [post [= ? _]]. done.
Qed.

(** [sub in s] holds exactly when [sub] occurs somewhere in [s]. *)
Lemma contains_spec sub s :
  contains sub s = true ↔ ∃ pre post, s = pre ++ sub ++ post.
Proof.
  induction s as [|c s IH].
  - simpl. rewrite orb_false_r, starts_with_spec. split.
    + intros [post ->]. by exists [], post.
    + intros (pre & post & Hs). destruct pre as [|c pre]; [by exists post|].
      discriminate Hs.
  - simpl. rewrite orb_true_iff, starts_with_spec, IH. split.
    + intros [[post ->]|(pre & post & ->)].
      * by exists [], post.
      * by exists (c :: pre), post.
    + intros (pre & post & Hs). destruct pre as [|c' pre].
      * left. by exists post.
      * right. exists pre, post. by injection Hs.
Qed.

(** C10.  For every URL, [is_wikipedia_url] returns a boolean and raises
    nothing, whatever [urlparse] does; the boolean is true exactly when
    [urlparse] returns and the text wikipedia.org occurs somewhere in the
    network location it found.  So a location that merely contains that
    text, such as wikipedia.org.example.com or fakewikipedia.org, is
    accepted. *)
Theorem is_wikipedia_url_spec (urlparse : str → result ParseResult) url :
  (∃ b, is_wikipedia_url urlparse url = Ok b ∧
        (b = true ↔
         ∃ p pre post, urlparse url = Ok p ∧
                       p.(netloc) = pre ++ py "wikipedia.org" ++ post)) ∧
  (∀ p, urlparse url = Ok p →
        p.(netloc) = py "wikipedia.org.example.com" ∨
        p.(netloc) = py "fakewikipedia.org" →
        is_wikipedia_url urlparse url = Ok true).
Proof.
  unfold is_wikipedia_url. split.
  - destruct (urlparse url) as [p|e]; simpl.
    + eexists. split; [done|]. rewrite contains_spec. split.
      * intros (pre & post & ?). by exists p, pre, post.
      * intros (p' & pre & post & [= <-] & ?). by exists pre, post.
    + exists false. split; [done|]. split; [done|].
      by intros (? & ? & ? & ? & _).
  - intros p -> [Hp|Hp]; simpl; rewrite Hp; vm_compute; reflexivity.
Qed.

(** The check on five URLs, parsed by the model of [urlparse]. *)
Lemma is_wikipedia_url_spec_witness :
  is_wikipedia_url urlparse_model (py "https://en.wikipedia.org/wiki/Alan_Turing")
  = Ok true ∧
  is_wikipedia_url urlparse_model (py "https://fakewikipedia.org/wiki/Alan_Turing")
  = Ok true ∧
  is_wikipedia_url urlparse_model (py "http://wikipedia.org.example.com/")
  = Ok true ∧
  is_wikipedia_url urlparse_model (py "https://example.com/wikipedia.org")
  = Ok false ∧
  is_wikipedia_url urlparse_model (py "http://[wikipedia.org/") = Ok false.
Proof.
  split_and!; [| | |vm_compute; reflexivity..].
  - vm_compute. reflexivity.
  - eapply (is_wikipedia_url_spec urlparse_model); [vm_compute; reflexivity|].
    by right.
  - eapply (is_wikipedia_url_spec urlparse_model); [vm_compute; reflexivity|].
    by left.
Defined.
(** ** Validation *)

Lemma str_field_ok P members key s :
  dict_get key members ≫= str_validator P = Some s ↔ str_field P members key s.
Proof.
  unfold str_field. destruct (dict_get key members) as [v|]; simpl.
  - split; [intros ?; by exists v|]. by intros (? & [= <-] & ?).
  - split; [done|]. by intros (? & ? & _).
Qed.

Lemma str_list_field_ok P members key l :
  dict_get key members ≫= validate_list (str_validator P) = Some l ↔
  str_list_field P members key l.
Proof.
  unfold str_list_field. destruct (dict_get key members) as [v|]; simpl.
  - destruct v as [| | | | |items|]; simpl;
      try (split; [done|by intros (? & ? & _)]).
    rewrite mapM_Some. split.
    + intros ?. by exists items.
    + by intros (? & [= <-] & ?).
  - split; [done|]. by intros (? & ? & _).
Qed.

Lemma validate_optional_str_Some P members key o :
  validate_optional_str P (dict_get key members) = Some o ↔
  optional_str_field P members key o.
Proof.
  unfold validate_optional_str, optional_str_field.
  destruct (dict_get key members) as [v|]; last first.
  { destruct (optional_default P); split; try done.
    - by intros [= <-].
    - by intros [_ ->].
    - by intros [? _]. }
  assert (Some <$> str_validator P v = Some o ↔
          ∃ s, str_validator P v = Some s ∧ o = Some s) as Hv.
  { destruct (str_validator P v) as [s|]; simpl; split.
    - intros [= <-]. by exists s.
    - by intros (? & [= <-] & ->).
    - done.
    - by intros (? & ? & _). }
  destruct v; try done. split; congruence.
Qed.

Lemma QuestionModel_validate_Some P v q :
  QuestionModel_validate P v = Some q ↔ question_shape P v q.
Proof.
  unfold question_shape, QuestionModel_validate.
  destruct (as_dict_item P v) as [members|]; simpl;
    [|split; [done|by intros (? & ? & _)]].
  split.
  - intros H. exists members. split; [done|].
    rewrite <-!str_field_ok, <-str_list_field_ok.
    destruct (dict_get (py "question") members ≫= str_validator P); [|done].
    destruct (dict_get (py "options") members ≫= validate_list (str_validator P));
      [|done].
    destruct (dict_get (py "answer") members ≫= str_validator P); [|done].
    destruct (dict_get (py "explanation") members ≫= str_validator P); [|done].
    destruct (dict_get (py "difficulty") members ≫= str_validator P); [|done].
    simpl in H. by simplify_eq.
  - intros (? & [= <-] & H1 & H2 & H3 & H4 & H5).
    apply str_field_ok in H1, H3, H4, H5. apply str_list_field_ok in H2.
    rewrite H1, H2, H3, H4, H5. simpl. by destruct q.
Qed.

Lemma QuizModel_validate_Some P members Q :
  QuizModel_validate P members = Some Q ↔
  ∃ items,
    optional_str_field P members (py "title") Q.(quiz_title) ∧
    optional_str_field P members (py "summary") Q.(quiz_summary) ∧
    dict_get (py "quiz") members = Some (JArr items) ∧
    Forall2 (question_shape P) items Q.(quiz) ∧
    str_list_field P members (py "related_topics") Q.(related_topics).
Proof.
  unfold QuizModel_validate. split.
  - intros H.
    destruct (validate_optional_str P (dict_get (py "title") members))
      as [t|] eqn:Ht; [|done].
    destruct (validate_optional_str P (dict_get (py "summary") members))
      as [sm|] eqn:Hsm; [|done].
    destruct (dict_get (py "quiz") members) as [qv|] eqn:Hq; [|done].
    destruct qv as [| | | | |items|]; try done.
    simpl in H.
    destruct (mapM (QuestionModel_validate P) items) as [qs|] eqn:Hqs; [|done].
    destruct (dict_get (py "related_topics") members
                ≫= validate_list (str_validator P)) as [rel|] eqn:Hrel; [|done].
    simpl in H. simplify_eq. simpl.
    exists items. split_and!; try done.
    + by apply validate_optional_str_Some.
    + by apply validate_optional_str_Some.
    + apply mapM_Some in Hqs. eapply Forall2_impl; [done|].
      intros. by apply QuestionModel_validate_Some.
    + by apply str_list_field_ok.
  - intros (items & Ht & Hsm & Hq & Hqs & Hrel).
    apply validate_optional_str_Some in Ht, Hsm.
    apply str_list_field_ok in Hrel.
    rewrite Ht, Hsm, Hq, Hrel. simpl.
    assert (mapM (QuestionModel_validate P) items = Some Q.(quiz)) as ->.
    { apply mapM_Some. eapply Forall2_impl; [done|].
      intros. by apply QuestionModel_validate_Some. }
    simpl. by destruct Q.
Qed.

Lemma QuizModel_parse_obj_Ok P payload Q :
  QuizModel_parse_obj P payload = Ok Q ↔ quiz_shape P payload Q.
Proof.
  unfold QuizModel_parse_obj, quiz_shape.
  destruct (as_dict_root P payload) as [members|e].
  - destruct (QuizModel_validate P members) as [Q'|] eqn:HQ.
    + split.
      * intros [= <-]. apply QuizModel_validate_Some in HQ as (items & ?).
        by exists members, items.
      * intros (? & items & [= <-] & H).
        assert (QuizModel_validate P members = Some Q) as HQ'
          by (apply QuizModel_validate_Some; by exists items).
        congruence.
    + split; [done|]. intros (? & items & [= <-] & H).
      assert (QuizModel_validate P members = Some Q) as HQ'
        by (apply QuizModel_validate_Some; by exists items).
      congruence.
  - split; [done|]. by intros (? & ? & ? & _).
Qed.

Lemma parse_and_validate_Some json_loads P text Q :
  _parse_and_validate_json json_loads P text = Ok (Some Q) ↔
  ∃ payload, json_loads text = Ok payload ∧ quiz_shape P payload Q.
Proof.
  unfold _parse_and_validate_json, try_except.
  destruct (json_loads text) as [payload|e].
  - destruct (QuizModel_parse_obj P payload) as [Q'|e] eqn:HQ.
    + split.
      * intros [= <-]. exists payload. split; [done|].
        by apply QuizModel_parse_obj_Ok.
      * intros (? & [= <-] & H%QuizModel_parse_obj_Ok). congruence.
    + split.
      * by destruct (caught e).
      * intros (? & [= <-] & H%QuizModel_parse_obj_Ok). congruence.
  - split; [by destruct (caught e)|]. by intros (? & ? & _).
Qed.

(** A quiz object written down as JSON validates to itself, whatever it
    holds. *)
Lemma json_of_quiz_shape P Q :
  pydantic_contract P → quiz_shape P (json_of_quiz Q) Q.
Proof.
  intros (Hstr & Hroot & Hitem).
  assert (∀ l, Forall2 (λ v s, str_validator P v = Some s) (JStr <$> l) l) as Hl.
  { intros l. apply Forall2_fmap_l, Forall_Forall2_diag, Forall_true. done. }
  eexists _, (json_of_question <$> Q.(quiz)). split_and!.
  - apply Hroot.
  - unfold optional_str_field.
    replace (dict_get (py "title") _)
      with (Some (json_of_optional Q.(quiz_title))) by reflexivity.
    destruct (quiz_title Q) as [s|]; simpl; [by exists s|done].
  - unfold optional_str_field.
    replace (dict_get (py "summary") _)
      with (Some (json_of_optional Q.(quiz_summary))) by reflexivity.
    destruct (quiz_summary Q) as [s|]; simpl; [by exists s|done].
  - reflexivity.
  - apply Forall2_fmap_l, Forall_Forall2_diag, Forall_true. intros q.
    eexists. split; [apply Hitem|].
    split_and!; first [eexists; split; [reflexivity|apply Hstr]
                      |eexists; split; [reflexivity|apply Hl]].
  - eexists. split; [reflexivity|apply Hl].
Qed.

(** C4, the claim refuted.  Validation accepts a reply whose title is
    null and whose only question has two equal options, an answer that is
    none of them and the difficulty 'extreme': the accepted object breaks
    every clause of the Quiz schema.  This is so for pydantic 2 and for any
    pydantic that takes JSON strings and objects as they are. *)
Lemma validation_accepts_malformed_quiz :
  QuizModel_parse_obj pydantic_2 malformed_payload = Ok malformed_quiz ∧
  (∀ P, pydantic_contract P →
        QuizModel_parse_obj P malformed_payload = Ok malformed_quiz) ∧
  (∀ json_loads P text,
     pydantic_contract P → json_loads text = Ok malformed_payload →
     _parse_and_validate_json json_loads P text = Ok (Some malformed_quiz)) ∧
  ¬ quiz_schema malformed_quiz ∧
  malformed_quiz.(quiz_title) = None ∧
  length malformed_quiz.(quiz) = 1 ∧
  Forall (λ q, length q.(options) = 2 ∧ ¬ NoDup q.(options) ∧
               (q.(answer) ∉ q.(options)) ∧
               (q.(difficulty) ∉ [py "easy"; py "medium"; py "hard"]))
         malformed_quiz.(quiz).
Proof.
  split_and!.
  - vm_compute. reflexivity.
  - intros P HP. apply QuizModel_parse_obj_Ok.
    by apply (json_of_quiz_shape P malformed_quiz).
  - intros json_loads P text HP Hloads. apply parse_and_validate_Some.
    exists malformed_payload. split; [done|].
    by apply (json_of_quiz_shape P malformed_quiz).
  - intros ([? [=]] & _).
  - done.
  - done.
  - repeat constructor.
    + intros Hnd. apply NoDup_cons in Hnd as [Hin _]. apply Hin. by left.
    + simpl. rewrite !elem_of_cons, elem_of_nil.
      intros [[=]|[[=]|[]]].
    + simpl. rewrite !elem_of_cons, elem_of_nil.
      intros [[=]|[[=]|[[=]|[]]]].
Qed.

(** C4, as amended.  The parse-and-validate step accepts a text exactly
    when the text is JSON, pydantic reads its value as an object, and the
    members of that object validate against the declared types; the accepted
    object then holds the validated values: title and summary are [None]
    (for null, or for a missing member where the library lets it default) or
    what the library's [str] validation makes of the member, quiz holds one
    question per item of an array, with validated question, answer,
    explanation and difficulty and the validated items of an array as
    options, related topics the validated items of an array.  With every
    library that takes JSON strings and objects as they are, a quiz object
    written down as JSON is accepted and comes back unchanged, so nothing
    but the types is checked.  Text that is not JSON, and JSON that does not
    have this shape, yield absence; an exception other than
    [JSONDecodeError] and [ValidationError] is not caught. *)
Theorem parse_and_validate_shape (json_loads : str → result json)
    (P : pydantic) (text : str) :
  (∀ Q, _parse_and_validate_json json_loads P text = Ok (Some Q) ↔
        ∃ payload, json_loads text = Ok payload ∧ quiz_shape P payload Q) ∧
  (pydantic_contract P →
   ∀ Q, json_loads text = Ok (json_of_quiz Q) →
        _parse_and_validate_json json_loads P text = Ok (Some Q)) ∧
  (json_loads text = Exc JSONDecodeError →
   _parse_and_validate_json json_loads P text = Ok None) ∧
  (∀ payload,
     json_loads text = Ok payload →
     (∃ members, as_dict_root P payload = Ok members) ∨
     as_dict_root P payload = Exc ValidationError →
     (∀ Q, ¬ quiz_shape P payload Q) →
     _parse_and_validate_json json_loads P text = Ok None).
Proof.
  split_and!.
  - intros Q. apply parse_and_validate_Some.
  - intros HP Q Hloads. apply parse_and_validate_Some.
    exists (json_of_quiz Q). split; [done|]. by apply json_of_quiz_shape.
  - unfold _parse_and_validate_json. by intros ->.
  - intros payload Hloads Hroot Hno.
    unfold _parse_and_validate_json. rewrite Hloads.
    destruct (QuizModel_parse_obj P payload) as [Q|e] eqn:HQ.
    { by apply QuizModel_parse_obj_Ok, Hno in HQ. }
    unfold QuizModel_parse_obj in HQ.
    destruct Hroot as [[members Hm]| Hv]; [rewrite Hm in HQ|rewrite Hv in HQ].
    + destruct (QuizModel_validate P members); by simplify_eq.
    + by simplify_eq.
Qed.

(** A reply whose title is the number 5: a pydantic that coerces accepts
    it with the title '5', pydantic 2 answers with absence; and the malformed
    reply is accepted by both. *)
Lemma parse_and_validate_shape_witness :
  _parse_and_validate_json (λ _, Ok numbered_payload) pydantic_coercing []
  = Ok (Some {| quiz_title := Some (py "5"); quiz_summary := None;
                quiz := []; related_topics := [] |}) ∧
  _parse_and_validate_json (λ _, Ok numbered_payload) pydantic_2 [] = Ok None ∧
  _parse_and_validate_json (λ _, Ok malformed_payload) pydantic_coercing []
  = Ok (Some malformed_quiz) ∧
  _parse_and_validate_json (λ _, Ok malformed_payload) pydantic_2 []
  = Ok (Some malformed_quiz).
Proof.
  split_and!.
  - vm_compute. reflexivity.
  - vm_compute. reflexivity.
  - apply (parse_and_validate_shape (λ _, Ok malformed_payload) pydantic_coercing []);
      [|reflexivity].
    split_and!; [by intros s|by intros m|by intros m].
  - apply (parse_and_validate_shape (λ _, Ok malformed_payload) pydantic_2 []);
      [|reflexivity].
    split_and!; [by intros s|by intros m|by intros m].
Defined.

(** ** The orchestration *)

(** C5 (the code raises where the claim promises a fall-through).  When a
    configured provider replies with a text on which [json.loads] raises
    an exception that is neither [JSONDecodeError] nor [ValidationError]
    (it raises [RecursionError] on deeply nested brackets, and a plain
    [ValueError] on an integer of more digits than the interpreter
    converts), the handler of lines 171-177 does not catch it and
    [generate_quiz] raises it: neither OpenAI nor the fallback generator is
    tried. *)
Theorem generate_quiz_propagates_parser_error (QUIZ_PROMPT_TEMPLATE : str)
    (U : unicode) (list_of_set : gset str → list str) (w : World)
    fuel title summary clean_text sections r text e :
  configured w.(GEMINI_API_KEY) = true →
  w.(gemini_generate) (prompt_of QUIZ_PROMPT_TEMPLATE title summary clean_text)
    = Some text →
  truthy text = true →
  w.(json_loads) text = Exc e →
  caught e = false →
  generate_quiz QUIZ_PROMPT_TEMPLATE U list_of_set w fuel title summary
    clean_text sections r
  = ([Gemini], Raise e).
Proof.
  intros Hkey Hreply Htext Hloads He.
  unfold generate_quiz, _call_gemini. rewrite Hkey, Hreply. simpl.
  rewrite Htext. unfold _parse_and_validate_json. rewrite Hloads. simpl.
  by rewrite He.
Qed.

(** Gemini replies with 100000 opening brackets: the call raises
    [RecursionError]. *)
Lemma generate_quiz_propagates_parser_error_witness :
  generate_quiz [] latin1 elements deep_world 10 (py "Foo") [] [] [] rng0
  = ([Gemini], Raise RecursionError).
Proof.
  apply (generate_quiz_propagates_parser_error [] latin1 elements deep_world
           10 (py "Foo") [] [] [] rng0 deep_text RecursionError).
  - reflexivity.
  - reflexivity.
  - vm_compute. reflexivity.
  - vm_compute. reflexivity.
  - reflexivity.
Defined.

(** X14.  [generate_quiz] tries Gemini, then OpenAI, then the fallback
    generator, in that order and each at most once.  Gemini is tried exactly
    when its key is configured; OpenAI exactly when its key is configured
    and the Gemini attempt ended without a quiz and without an exception;
    the fallback exactly when both remote attempts ended so.  The first quiz
    that validates is returned as it was validated; an exception that leaves
    the parse-and-validate step leaves [generate_quiz]; when no remote
    attempt gives a quiz or raises, the result is the fallback generator's.
    An exception is raised only if a remote attempt raised it, and it is
    then neither [JSONDecodeError] nor [ValidationError]. *)
Theorem generate_quiz_order (QUIZ_PROMPT_TEMPLATE : str) (U : unicode)
    (list_of_set : gset str → list str) (w : World)
    fuel title summary clean_text sections r :
  let prompt := prompt_of QUIZ_PROMPT_TEMPLATE title summary clean_text in
  let '(tried, result) :=
    generate_quiz QUIZ_PROMPT_TEMPLATE U list_of_set w fuel title summary
      clean_text sections r in
  tried `sublist_of` [Gemini; OpenAI; Fallback] ∧
  (Gemini ∈ tried ↔ configured w.(GEMINI_API_KEY) = true) ∧
  (OpenAI ∈ tried ↔
   configured w.(OPENAI_API_KEY) = true ∧ gemini_quiz w prompt = Ok None) ∧
  (Fallback ∈ tried ↔
   gemini_quiz w prompt = Ok None ∧ openai_quiz w prompt = Ok None) ∧
  (∀ Q, gemini_quiz w prompt = Ok (Some Q) → result = Ret (Q, r)) ∧
  (∀ e, gemini_quiz w prompt = Exc e → result = Raise e) ∧
  (∀ Q, gemini_quiz w prompt = Ok None → openai_quiz w prompt = Ok (Some Q) →
        result = Ret (Q, r)) ∧
  (∀ e, gemini_quiz w prompt = Ok None → openai_quiz w prompt = Exc e →
        result = Raise e) ∧
  (gemini_quiz w prompt = Ok None → openai_quiz w prompt = Ok None →
   result = _fallback_generate_from_text U list_of_set fuel title summary
              clean_text sections r) ∧
  (∀ e, result = Raise e →
        caught e = false ∧
        (gemini_quiz w prompt = Exc e ∨ openai_quiz w prompt = Exc e)).
Proof.
  intros prompt.
  assert (∀ text e, usable_reply w text = Exc e → caught e = false) as Hcaught.
  { intros [text|] e; simpl; [|done]. destruct (truthy text); [|done].
    unfold _parse_and_validate_json, try_except.
    destruct (json_loads w text) as [payload|e'].
    - destruct (QuizModel_parse_obj (validation w) payload) as [Q|e']; [done|].
      destruct (caught e') eqn:He; [done|]. by intros [= <-].
    - destruct (caught e') eqn:He; [done|]. by intros [= <-]. }
  assert (∀ key call,
            remote_quiz w key call prompt =
            if configured key then usable_reply w (call prompt) else Ok None)
    as Hremote.
  { intros [[|c k]|] call; unfold remote_quiz; simpl; try done;
      by destruct (call prompt) as [[|c' text]|]. }
  unfold gemini_quiz, openai_quiz. rewrite !Hremote.
  unfold generate_quiz, _call_gemini, _call_openai. fold prompt.
  destruct (configured (GEMINI_API_KEY w)) eqn:Hg;
    [destruct (usable_reply w (gemini_generate w prompt)) as [[Qg|]|eg] eqn:Hgq|];
    (destruct (configured (OPENAI_API_KEY w)) eqn:Ho;
      [destruct (usable_reply w (openai_chat w prompt)) as [[Qo|]|eo] eqn:Hoq|]);
    simpl.
  all: split; [repeat first [apply sublist_nil | apply sublist_skip | apply sublist_cons]|].
  all: rewrite ?elem_of_cons, ?elem_of_nil.
  all: split_and!; try (intuition congruence).
  all: try (intros e He; exfalso; by eapply fallback_no_Raise).
  all: intros e [= <-]; split; eauto.
Qed.

(** In the sample world Gemini is tried, its reply is not JSON and is
    dropped, OpenAI is not configured, and the fallback generator answers. *)
Lemma generate_quiz_order_witness :
  generate_quiz [] latin1 elements sample_world 10 (py "Foo") [] [] [] rng0
  = ([Gemini; Fallback],
     _fallback_generate_from_text latin1 elements 10 (py "Foo") [] [] [] rng0) ∧
  gemini_quiz sample_world (prompt_of [] (py "Foo") [] []) = Ok None ∧
  openai_quiz sample_world (prompt_of [] (py "Foo") [] []) = Ok None.
Proof.
  split; [vm_compute; reflexivity|].
  pose proof (generate_quiz_order [] latin1 elements sample_world 10 (py "Foo")
                [] [] [] rng0) as H.
  replace (generate_quiz [] latin1 elements sample_world 10 (py "Foo") [] [] [] rng0)
    with ([Gemini; Fallback],
          _fallback_generate_from_text latin1 elements 10 (py "Foo") [] [] [] rng0)
    in H by (vm_compute; reflexivity).
  destruct H as (_ & _ & _ & Hfallback & _). apply Hfallback.
  rewrite !elem_of_cons. right. by left.
Defined.

(** ** Further properties of the fallback generator *)

Lemma make_question_starved_for U fuel title summary sentences words i r sentence :
  source_sentence sentences i = Some sentence →
  words ≠ [] →
  (∀ c, correct_for U title sentence c →
        ∃ univ, length univ < 4 ∧ c ∈ univ ∧ words ⊆ univ) →
  make_question U fuel title summary sentences words i r = Timeout.
Proof.
  intros Hs Hne Huniv.
  destruct (pick_correct_eq U title sentence r) as (c & k & Hpick & Hc).
  destruct (Huniv c Hc) as (univ & Hlen & Hin & Hsub).
  rewrite (make_question_unfold _ _ _ _ _ _ _ _ _ _ _ Hs Hpick).
  apply bind_Timeout. left.
  apply (build_options_starved univ); [done|done|apply NoDup_singleton| |done].
  by intros x ->%list_elem_of_singleton.
Qed.

Lemma sentences_of_head U title summary clean_text :
  ∃ sentence rest, sentences_of U title summary clean_text = sentence :: rest.
Proof.
  pose proof (sentences_of_nonempty U title summary clean_text).
  destruct (sentences_of U title summary clean_text) as [|s0 rest]; [done|].
  by exists s0, rest.
Qed.

(** X1.  The fallback generator raises no exception: whatever the title,
    the summary, the text, the sections, the order of the pool and the
    random numbers, a run either is still in its option loop when the fuel
    ends or returns a quiz.  In particular [sentences[idx]], [parts[0]] and
    the three [random.choice] calls are never out of range. *)
Theorem fallback_never_raises (U : unicode) (list_of_set : gset str → list str)
    fuel title summary clean_text sections r :
  _fallback_generate_from_text U list_of_set fuel title summary clean_text
    sections r = Timeout ∨
  ∃ Q r', _fallback_generate_from_text U list_of_set fuel title summary
            clean_text sections r = Ret (Q, r').
Proof.
  destruct (_fallback_generate_from_text _ _ _ _ _ _ _ _) as [[Q r']|e|] eqn:E.
  - right. by exists Q, r'.
  - by apply fallback_no_Raise in E.
  - by left.
Qed.

(** X2.  Every question of a returned quiz has the difficulty 'easy',
    'medium' or 'hard'. *)
Theorem fallback_difficulty_levels (U : unicode)
    (list_of_set : gset str → list str)
    fuel title summary clean_text sections r Q r' :
  _fallback_generate_from_text U list_of_set fuel title summary clean_text
    sections r = Ret (Q, r') →
  Forall (λ q, q.(difficulty) ∈ [py "easy"; py "medium"; py "hard"]) Q.(quiz).
Proof.
  intros (_ & _ & _ & Hquiz)%fallback_Ret.
  eapply Forall2_seq_Forall; [|done].
  intros i q (sentence & _ & Hq). apply Hq.
Qed.

(** A run on three sentences about Einstein returns; its difficulties. *)
Lemma fallback_difficulty_levels_witness :
  ∃ Q r',
    _fallback_generate_from_text latin1 elements 30 (py "Albert Einstein") []
      einstein_text [] rng0 = Ret (Q, r') ∧
    Forall (λ q, q.(difficulty) ∈ [py "easy"; py "medium"; py "hard"]) Q.(quiz).
Proof.
  eexists _, _. split; [vm_compute; reflexivity|].
  eapply (fallback_difficulty_levels latin1 elements 30 (py "Albert Einstein") []
            einstein_text [] rng0).
  vm_compute. reflexivity.
Defined.

(** X3.  In a returned quiz every option other than the answer is a word
    of the pool; only when the pool is empty is it a synthetic name, 'Option'
    followed by a number from 1 to 99. *)
Theorem fallback_distractors_from_pool (U : unicode)
    (list_of_set : gset str → list str)
    fuel title summary clean_text sections r Q r' :
  _fallback_generate_from_text U list_of_set fuel title summary clean_text
    sections r = Ret (Q, r') →
  let pool := word_pool U list_of_set (sentences_of U title summary clean_text) in
  Forall (λ q, ∀ x, x ∈ q.(options) →
                    x = q.(answer) ∨ x ∈ pool ∨
                    (pool = [] ∧
                     ∃ n, 1 ≤ n ≤ 99 ∧ x = py "Option" ++ py (pretty n)))
         Q.(quiz).
Proof.
  intros (_ & _ & _ & Hquiz)%fallback_Ret pool.
  eapply Forall2_seq_Forall; [|done].
  intros i q (sentence & _ & Hq) x Hx. simpl in *.
  destruct (qf_options _ _ _ _ _ _ Hq x Hx) as [->|Hpick]; [by left|right].
  fold pool in Hpick. destruct pool as [|w ws]; [right|by left].
  split; [done|].
  apply list_elem_of_fmap in Hpick as (n & -> & Hn%elem_of_seq).
  exists n. split; [lia|done].
Qed.

(** The options of the run on the Einstein text: answers and pool words. *)
Lemma fallback_distractors_from_pool_witness :
  ∃ Q r',
    _fallback_generate_from_text latin1 elements 30 (py "Albert Einstein") []
      einstein_text [] rng0 = Ret (Q, r') ∧
    Forall (λ q, ∀ x, x ∈ q.(options) →
                      x = q.(answer) ∨
                      x ∈ word_pool latin1 elements
                            (sentences_of latin1 (py "Albert Einstein") []
                               einstein_text) ∨
                      (word_pool latin1 elements
                         (sentences_of latin1 (py "Albert Einstein") []
                            einstein_text) = [] ∧
                       ∃ n, 1 ≤ n ≤ 99 ∧ x = py "Option" ++ py (pretty n)))
           Q.(quiz).
Proof.
  eexists _, _. split; [vm_compute; reflexivity|].
  eapply (fallback_distractors_from_pool latin1 elements 30 (py "Albert Einstein")
            [] einstein_text [] rng0).
  vm_compute. reflexivity.
Defined.

(** X4.  Starvation of the option loop.  When the pool is not empty but
    holds one or two words, or holds three that include every possible answer
    of the first question, the generator never returns: every run, on every
    tape and with any fuel, is still in the [while] loop of the first
    question. *)
Theorem fallback_starved_by_small_pool (U : unicode)
    (list_of_set : gset str → list str)
    fuel title summary clean_text sections r :
  let sentences := sentences_of U title summary clean_text in
  let pool := word_pool U list_of_set sentences in
  pool ≠ [] →
  length pool < 3 ∨
  (length pool = 3 ∧
   ∀ sentence c, sentences !! 0 = Some sentence →
                 correct_for U title sentence c → c ∈ pool) →
  _fallback_generate_from_text U list_of_set fuel title summary clean_text
    sections r = Timeout.
Proof.
  intros sentences pool Hne Hsmall.
  unfold _fallback_generate_from_text. apply bind_Timeout. left.
  fold sentences. fold pool.
  pose proof (num_q_of_bounds sentences) as [Hq _].
  destruct (num_q_of sentences) as [|n]; [lia|]. simpl.
  apply bind_Timeout. left.
  destruct (sentences_of_head U title summary clean_text) as (s0 & rest & Hs).
  fold sentences in Hs.
  apply (make_question_starved_for _ _ _ _ _ _ _ _ s0); [by rewrite Hs|done|].
  intros c Hc. destruct Hsmall as [Hlt|[Hthree Hin]].
  - exists (c :: pool). split_and!; [simpl; lia|by left|].
    intros x Hx. by right.
  - exists pool. split_and!; [lia| |done].
    apply (Hin s0); [by rewrite Hs|done].
Qed.

(** The title 'Albert Einstein' alone: a pool of two words. *)
Lemma fallback_starved_by_small_pool_witness :
  _fallback_generate_from_text latin1 elements 1000 (py "Albert Einstein") [] []
    [] rng0
  = Timeout.
Proof.
  apply (fallback_starved_by_small_pool latin1 elements).
  - vm_compute. discriminate.
  - left. vm_compute. lia.
Defined.

(** X5.  Progress of the option loop.  When the pool is empty or holds at
    least four words, the generator returns on every fair tape once the fuel
    is large enough; more fuel gives the same quiz, and the quiz has between
    five and seven questions. *)
Theorem fallback_returns_on_fair_tape (U : unicode)
    (list_of_set : gset str → list str)
    (list_of_set_perm : ∀ X, list_of_set X ≡ₚ elements X)
    title summary clean_text sections r :
  let pool := word_pool U list_of_set (sentences_of U title summary clean_text) in
  fair (tape r) → pool = [] ∨ 4 ≤ length pool →
  ∃ fuel Q k,
    5 ≤ length Q.(quiz) ≤ 7 ∧
    ∀ fuel', fuel ≤ fuel' →
      _fallback_generate_from_text U list_of_set fuel' title summary clean_text
        sections r = Ret (Q, advance k r).
Proof.
  intros pool Hfair Hpool.
  destruct (fallback_fair U list_of_set list_of_set_perm title summary clean_text
              sections r Hfair Hpool) as (fuel & Q & k & Hrun).
  exists fuel, Q, k. split; [|done].
  specialize (Hrun fuel (le_n _)).
  apply fallback_Ret in Hrun as (_ & _ & _ & Hquiz).
  apply Forall2_length in Hquiz. rewrite length_seq in Hquiz.
  rewrite <-Hquiz. apply num_q_of_bounds.
Qed.

(** The Einstein text has a pool of eleven words, and 0, 1, 2, ... is fair. *)
Lemma fallback_returns_on_fair_tape_witness :
  ∃ fuel Q k,
    5 ≤ length Q.(quiz) ≤ 7 ∧
    ∀ fuel', fuel ≤ fuel' →
      _fallback_generate_from_text latin1 elements fuel' (py "Albert Einstein") []
        einstein_text [] rng0 = Ret (Q, advance k rng0).
Proof.
  apply (fallback_returns_on_fair_tape latin1 elements (λ X, reflexivity _)).
  - exact fair_id.
  - right. vm_compute. lia.
Defined.

(** X6.  A question whose index is not below the number of sentences is
    built from the first sentence: its text, its explanation and its answer
    are those of a question on sentence 0.  An article of fewer than five
    sentences therefore yields questions that repeat the first one. *)
Theorem fallback_reuses_first_sentence (U : unicode)
    (list_of_set : gset str → list str)
    fuel title summary clean_text sections r Q r' :
  _fallback_generate_from_text U list_of_set fuel title summary clean_text
    sections r = Ret (Q, r') →
  let sentences := sentences_of U title summary clean_text in
  ∀ i q, length sentences ≤ i → Q.(quiz) !! i = Some q →
    ∃ first, sentences !! 0 = Some first ∧
             q.(question) = question_text U title summary first ++ py "?" ∧
             q.(explanation) = explanation_text U first ∧
             correct_for U title first q.(answer).
Proof.
  intros (_ & _ & _ & Hquiz)%fallback_Ret sentences i q Hi Hq.
  destruct (Forall2_lookup_r _ _ _ _ _ Hquiz Hq) as (j & Hj & sentence & Hsrc & Hfor).
  apply lookup_seq in Hj as [-> _]. simpl in Hsrc.
  unfold source_sentence in Hsrc. fold sentences in Hsrc.
  destruct (i <? length sentences) eqn:E; [apply Nat.ltb_lt in E; lia|].
  exists sentence. split_and!; [done|apply Hfor..].
Qed.

(** One sentence, five questions: all of them ask the same. *)
Lemma fallback_reuses_first_sentence_witness :
  ∃ Q r',
    _fallback_generate_from_text latin1 elements 20 (py "Fox") []
      (pangram ++ py ".") [] rng0 = Ret (Q, r') ∧
    ∀ i q, 1 ≤ i → Q.(quiz) !! i = Some q →
           q.(question) = pangram ++ py "?".
Proof.
  eexists _, _. split; [vm_compute; reflexivity|].
  intros i q Hi Hq.
  edestruct (fallback_reuses_first_sentence latin1 elements 20 (py "Fox") []
               (pangram ++ py ".") [] rng0)
    as (first & Hfirst & Hquestion & _).
  - vm_compute. reflexivity.
  - replace (length (sentences_of latin1 (py "Fox") [] (pangram ++ py ".")))
      with 1 by (vm_compute; reflexivity).
    exact Hi.
  - exact Hq.
  - rewrite Hquestion.
    replace first with pangram.
    + vm_compute. reflexivity.
    + revert Hfirst.
      replace (sentences_of latin1 (py "Fox") [] (pangram ++ py "."))
        with [pangram] by (vm_compute; reflexivity).
      simpl. congruence.
Defined.

(** ** Sentences and texts *)

Lemma split_on_no_sep sep s :
  Forall (Forall (λ c, c ≠ sep)) (split_on sep s).
Proof.
  induction s as [|c s IH]; simpl.
  { by repeat constructor. }
  case_decide as Hc.
  - by constructor.
  - destruct (split_on sep s) as [|p ps].
    + by repeat constructor.
    + apply Forall_cons in IH as [Hp Hps]. by repeat constructor.
Qed.

Lemma rstrip_by_idemp p s : rstrip_by p (rstrip_by p s) = rstrip_by p s.
Proof.
  induction s as [|a s IH]; [done|]. simpl.
  destruct (negb (truthy (rstrip_by p s)) && p a) eqn:E; [done|].
  simpl. by rewrite IH, E.
Qed.

Lemma length_lstrip_by p s : length (lstrip_by p s) ≤ length s.
Proof.
  induction s as [|b s IH]; simpl; [done|]. destruct (p b); simpl; lia.
Qed.

Lemma length_rstrip_by p s : length (rstrip_by p s) ≤ length s.
Proof.
  induction s as [|b s IH]; simpl; [done|].
  destruct (negb (truthy (rstrip_by p s)) && p b); simpl; lia.
Qed.

Lemma length_strip_by p s : length (strip_by p s) ≤ length s.
Proof.
  unfold strip_by. etrans; [apply length_rstrip_by|apply length_lstrip_by].
Qed.

Lemma lstrip_by_rstrip_by p s :
  lstrip_by p s = s → lstrip_by p (rstrip_by p s) = rstrip_by p s.
Proof.
  destruct s as [|a s]; [done|]. simpl.
  destruct (p a) eqn:Ea.
  - intros Hs. exfalso.
    pose proof (length_lstrip_by p s) as Hlen.
    rewrite Hs in Hlen. simpl in Hlen. lia.
  - intros _. rewrite andb_false_r. simpl. by rewrite Ea.
Qed.

Lemma lstrip_by_idemp p s : lstrip_by p (lstrip_by p s) = lstrip_by p s.
Proof.
  induction s as [|a s IH]; [done|]. simpl.
  destruct (p a) eqn:Ea; [done|]. simpl. by rewrite Ea.
Qed.

(** Stripping twice is stripping once: a stripped string neither starts
    nor ends with a stripped character. *)
Lemma strip_by_idemp p s : strip_by p (strip_by p s) = strip_by p s.
Proof.
  unfold strip_by.
  rewrite (lstrip_by_rstrip_by p (lstrip_by p s)) by apply lstrip_by_idemp.
  apply rstrip_by_idemp.
Qed.

Lemma truthy_true s : truthy s = true ↔ s ≠ [].
Proof. by destruct s. Qed.

(** X7.  The sentences cut out of the article text (line 55) are never
    empty, carry no white space at either end and contain no full stop. *)
Theorem split_sentences_clean (U : unicode) (clean_text : str) :
  Forall (λ s, s ≠ [] ∧ strip U s = s ∧ full_stop ∉ s)
         (split_sentences U clean_text).
Proof.
  unfold split_sentences. apply Forall_fmap, Forall_forall.
  intros piece [Hne Hin]%list_elem_of_filter. simpl.
  split_and!.
  - by apply truthy_true, Is_true_true.
  - apply strip_by_idemp.
  - pose proof (split_on_no_sep full_stop clean_text) as Hall.
    rewrite Forall_forall in Hall. specialize (Hall piece Hin).
    apply (Forall_strip_by _ (is_space U)) in Hall.
    rewrite Forall_forall in Hall. intros Hdot. by apply (Hall full_stop).
Qed.

Lemma split_on_nonempty sep s : split_on sep s ≠ [].
Proof.
  destruct s as [|c s]; simpl; [done|].
  case_decide; [done|]. by destruct (split_on sep s).
Qed.

(** The pieces of [s.split(sep)], joined by [sep], give [s] back. *)
Lemma join_split_on sep s : join [sep] (split_on sep s) = s.
Proof.
  induction s as [|c s IH]; simpl; [done|].
  pose proof (split_on_nonempty sep s) as Hne.
  case_decide as Hc.
  - subst c. destruct (split_on sep s) as [|p ps]; [done|].
    simpl in *. by rewrite IH.
  - destruct (split_on sep s) as [|p ps]; [done|].
    destruct ps as [|p' ps]; simpl in *; by rewrite <-IH.
Qed.

Lemma lstrip_by_all p s : Forall (λ c, p c = true) s → lstrip_by p s = [].
Proof. induction 1 as [|c s Hc _ IH]; simpl; [done|]. by rewrite Hc. Qed.

(** Stripping leaves nothing exactly when every character is stripped. *)
Lemma strip_by_nil p s : strip_by p s = [] ↔ Forall (λ c, p c = true) s.
Proof.
  split.
  - intros Hs. destruct (strip_by_spec p s) as (pre & post & Heq & Hpre & Hpost & _).
    rewrite Hs in Heq. rewrite Heq. by apply Forall_app.
  - intros Hs. unfold strip_by. by rewrite lstrip_by_all.
Qed.

(** X15.  The sentences of lines 55-57.  Cutting the article text at
    every full stop gives pieces that hold no full stop and that, joined by
    full stops, are the text; the sentences are, in the order of the text,
    the pieces that are not made of white space only, each without the white
    space at its two ends.  When there is no such piece the only sentence is
    the summary, or the title when the summary is empty. *)
Theorem sentences_are_stripped_pieces (U : unicode) (title summary clean_text : str) :
  ∃ pieces,
    join [full_stop] pieces = clean_text ∧
    Forall (λ p, full_stop ∉ p) pieces ∧
    Forall2 (stripped (is_space U))
      (filter (λ p, forallb (is_space U) p = false) pieces)
      (split_sentences U clean_text) ∧
    (split_sentences U clean_text ≠ [] →
     sentences_of U title summary clean_text = split_sentences U clean_text) ∧
    (split_sentences U clean_text = [] → summary ≠ [] →
     sentences_of U title summary clean_text = [summary]) ∧
    (split_sentences U clean_text = [] → summary = [] →
     sentences_of U title summary clean_text = [title]).
Proof.
  exists (split_on full_stop clean_text). split_and!.
  - apply join_split_on.
  - eapply Forall_impl; [apply split_on_no_sep|].
    intros p Hp Hin. rewrite Forall_forall in Hp. by apply (Hp full_stop).
  - unfold split_sentences.
    rewrite (list_filter_iff (λ s, truthy (strip U s))
                             (λ p, forallb (is_space U) p = false)).
    + apply Forall2_fmap_r, Forall_Forall2_diag, Forall_true.
      intros p. apply strip_by_spec.
    + intros p. rewrite Is_true_true, truthy_true. unfold strip.
      rewrite strip_by_nil, <-not_true_iff_false, forallb_forall, Forall_forall.
      split; intros H Hall; apply H; intros c Hc; apply Hall;
        by apply list_elem_of_In.
  - unfold sentences_of. by destruct (split_sentences U clean_text).
  - unfold sentences_of. intros -> Hs. by destruct summary.
  - unfold sentences_of. by intros -> ->.
Qed.

(** A text of four pieces, one of them blank. *)
Lemma sentences_are_stripped_pieces_witness :
  split_on full_stop (py "A b. C d.  . E") = [py "A b"; py " C d"; py "  "; py " E"] ∧
  sentences_of latin1 (py "T") [] (py "A b. C d.  . E") = [py "A b"; py "C d"; py "E"] ∧
  ∃ pieces,
    join [full_stop] pieces = py "A b. C d.  . E" ∧
    Forall2 (stripped (is_space latin1))
      (filter (λ p, forallb (is_space latin1) p = false) pieces)
      (split_sentences latin1 (py "A b. C d.  . E")).
Proof.
  split; [vm_compute; reflexivity|]. split; [vm_compute; reflexivity|].
  destruct (sentences_are_stripped_pieces latin1 (py "T") [] (py "A b. C d.  . E"))
    as (pieces & Hjoin & _ & Hsent & _).
  by exists pieces.
Defined.

Lemma length_slice_to n s : length (slice_to n s) ≤ n.
Proof. unfold slice_to. rewrite length_take. lia. Qed.

(** X8.  The texts of a returned quiz are bounded, however long the
    article: a question has at most 201 characters and an explanation at
    most 150. *)
Theorem fallback_text_bounds (U : unicode) (list_of_set : gset str → list str)
    fuel title summary clean_text sections r Q r' :
  _fallback_generate_from_text U list_of_set fuel title summary clean_text
    sections r = Ret (Q, r') →
  Forall (λ q, length q.(question) ≤ 201 ∧
               length q.(explanation) ≤ 150) Q.(quiz).
Proof.
  intros (_ & _ & _ & Hquiz)%fallback_Ret.
  eapply Forall2_seq_Forall; [|done].
  intros i q (sentence & _ & Hq). simpl.
  rewrite (qf_question _ _ _ _ _ _ Hq), (qf_explanation _ _ _ _ _ _ Hq).
  unfold explanation_text. rewrite !length_app. split.
  - assert (length (question_text U title summary sentence) ≤ 200);
      [|change (length (py "?")) with 1; lia].
    unfold question_text. case_match.
    + apply length_slice_to.
    + etrans; [apply length_rstrip_by|apply length_slice_to].
  - pose proof (length_strip_by (is_space U) (slice_to 120 sentence)).
    pose proof (length_slice_to 120 sentence).
    change (length (py "Based on the article text: '")) with 28.
    change (length (py "'.")) with 2.
    unfold strip. lia.
Qed.

(** The texts of the run on the Einstein article. *)
Lemma fallback_text_bounds_witness :
  ∃ Q r',
    _fallback_generate_from_text latin1 elements 30 (py "Albert Einstein") []
      einstein_text [] rng0 = Ret (Q, r') ∧
    Forall (λ q, length q.(question) ≤ 201 ∧
                 length q.(explanation) ≤ 150) Q.(quiz).
Proof.
  eexists _, _. split; [vm_compute; reflexivity|].
  eapply (fallback_text_bounds latin1 elements 30 (py "Albert Einstein") []
            einstein_text [] rng0).
  vm_compute. reflexivity.
Defined.

(** ** The word pool *)

Lemma elem_of_add_word (U : unicode) (words : gset str) tok w :
  w ∈ add_word U words tok ↔
  w ∈ words ∨
  (w = capitalize U (strip_chars punctuation tok) ∧
   3 < length w ∧ isnumeric U w = false).
Proof.
  unfold add_word.
  destruct ((3 <? length (capitalize U (strip_chars punctuation tok)))
            && negb (isnumeric U (capitalize U (strip_chars punctuation tok))))
    eqn:E.
  - apply andb_prop in E as [Hlen%Nat.ltb_lt Hnum%negb_true_iff].
    rewrite elem_of_union, elem_of_singleton. split.
    + intros [->|?]; [right|left]; done.
    + intros [?|(-> & _)]; [right|left]; done.
  - split; [by left|]. intros [?|(-> & Hlen%Nat.ltb_lt & Hnum)]; [done|].
    rewrite Hlen, Hnum in E. done.
Qed.

Lemma elem_of_foldl_add_word (U : unicode) (words : gset str) toks w :
  w ∈ foldl (add_word U) words toks ↔
  w ∈ words ∨
  ∃ tok, tok ∈ toks ∧ w = capitalize U (strip_chars punctuation tok) ∧
         3 < length w ∧ isnumeric U w = false.
Proof.
  revert words. induction toks as [|t toks IH]; intros words; simpl.
  { split; [by left|]. intros [?|(? & []%elem_of_nil & _)]. done. }
  rewrite IH, elem_of_add_word. split.
  - intros [[?|?]|(tok & ? & ?)].
    + by left.
    + right. exists t. split; [by left|done].
    + right. exists tok. split; [by right|done].
  - intros [?|(tok & [->|?]%elem_of_cons & ?)].
    + left. by left.
    + left. by right.
    + right. by exists tok.
Qed.

(** The set built by lines 63-68: the capitalised, stripped tokens of the
    first twenty sentences that are longer than three characters and not
    numbers. *)
Lemma elem_of_word_set (U : unicode) sentences w :
  w ∈ word_set U sentences ↔
  ∃ s tok, s ∈ take 20 sentences ∧ tok ∈ split_ws U s ∧
           w = capitalize U (strip_chars punctuation tok) ∧
           3 < length w ∧ isnumeric U w = false.
Proof.
  unfold word_set.
  assert (∀ (l : list str) (words : gset str),
    w ∈ foldl (λ words s, foldl (add_word U) words (split_ws U s)) words l ↔
    w ∈ words ∨
    ∃ s tok, s ∈ l ∧ tok ∈ split_ws U s ∧
             w = capitalize U (strip_chars punctuation tok) ∧
             3 < length w ∧ isnumeric U w = false) as Hgo.
  { induction l as [|s l IH]; intros words; simpl.
    { split; [by left|]. intros [?|(? & ? & []%elem_of_nil & _)]. done. }
    rewrite IH, elem_of_foldl_add_word. split.
    - intros [[?|(tok & ? & ?)]|(s' & tok & ? & ?)].
      + by left.
      + right. exists s, tok. split; [by left|done].
      + right. exists s', tok. split; [by right|done].
    - intros [?|(s' & tok & [->|?]%elem_of_cons & ?)].
      + left. by left.
      + left. right. by exists tok.
      + right. by exists s', tok. }
  rewrite Hgo. split; [|by right].
  intros [[]%not_elem_of_empty|?]. done.
Qed.

Lemma isnumeric_spec (U : unicode) w :
  isnumeric U w = true ↔ w ≠ [] ∧ Forall (λ c, is_numeric U c = true) w.
Proof.
  unfold isnumeric. rewrite andb_true_iff, truthy_true, forallb_forall.
  rewrite Forall_forall. split; intros [? H]; (split; [done|]).
  - intros c Hc. apply H. by apply list_elem_of_In.
  - intros c Hc. apply H. by apply list_elem_of_In.
Qed.

(** X9.  The distractor pool (lines 63-69) has no repeated word and at
    most fifty words.  Each of them comes from a token of one of the first
    twenty sentences, a maximal run of characters that are not white space:
    it is what [capitalize] makes of the token without the punctuation at
    its two ends, it is longer than three characters, and it is not made of
    numeric characters only.  As long as there are at most fifty such words,
    all of them are in the pool.  Lengths are counted in characters. *)
Theorem word_pool_words (U : unicode) (list_of_set : gset str → list str)
    (list_of_set_perm : ∀ X, list_of_set X ≡ₚ elements X)
    (sentences : list str) :
  let pool := word_pool U list_of_set sentences in
  (∀ s, tokens_of (is_space U) s (split_ws U s)) ∧
  (∀ t, stripped is_punctuation t (strip_chars punctuation t)) ∧
  (∀ w, isnumeric U w = true ↔ w ≠ [] ∧ Forall (λ c, is_numeric U c = true) w) ∧
  NoDup pool ∧ length pool ≤ 50 ∧
  (∀ w, w ∈ pool →
        (∃ s tok, s ∈ take 20 sentences ∧ tok ∈ split_ws U s ∧
                  w = capitalize U (strip_chars punctuation tok)) ∧
        3 < length w ∧ isnumeric U w = false) ∧
  (size (word_set U sentences) ≤ 50 →
   ∀ s tok, s ∈ take 20 sentences → tok ∈ split_ws U s →
            3 < length (capitalize U (strip_chars punctuation tok)) →
            isnumeric U (capitalize U (strip_chars punctuation tok)) = false →
            capitalize U (strip_chars punctuation tok) ∈ pool).
Proof.
  intros pool. split_and!.
  - apply split_ws_spec.
  - apply strip_chars_spec.
  - apply isnumeric_spec.
  - by apply word_pool_NoDup.
  - unfold pool. rewrite word_pool_length by done. lia.
  - intros w Hw%(word_pool_elem U list_of_set list_of_set_perm).
    apply elem_of_word_set in Hw as (s & tok & Hs & Htok & -> & Hlen & Hnum).
    split_and!; [by exists s, tok|done|done].
  - intros Hsize s tok Hs Htok Hlen Hnum.
    unfold pool, word_pool. rewrite take_ge.
    + rewrite list_of_set_perm. apply elem_of_elements, elem_of_word_set.
      by exists s, tok.
    + rewrite list_of_set_perm. done.
Qed.

(** The pool of two sentences of the Einstein text, enumerated by
    [elements]. *)
Lemma word_pool_words_witness :
  NoDup (word_pool latin1 elements
           [py "Albert Einstein was a German-born theoretical physicist";
            py "He developed the theory of relativity (in 1905)"]) ∧
  py "Relativity" ∈ word_pool latin1 elements
           [py "Albert Einstein was a German-born theoretical physicist";
            py "He developed the theory of relativity (in 1905)"].
Proof.
  destruct (word_pool_words latin1 elements (λ X, reflexivity _)
              [py "Albert Einstein was a German-born theoretical physicist";
               py "He developed the theory of relativity (in 1905)"])
    as (_ & _ & _ & Hnd & _ & _ & Hall).
  split; [exact Hnd|].
  apply (Hall ltac:(vm_compute; lia)
           (py "He developed the theory of relativity (in 1905)")
           (py "relativity")).
  - right. left.
  - vm_compute. do 5 right. left.
  - vm_compute. lia.
  - vm_compute. reflexivity.
Defined.

(** ** Related topics, continued *)

Lemma filter_ne_not_elem (x : str) (l : list str) :
  x ∉ l → filter (λ y, y ≠ x) l = l.
Proof.
  induction l as [|y l IH]; [done|].
  intros [Hxy Hx]%not_elem_of_cons.
  rewrite filter_cons_True by done. by rewrite IH.
Qed.

Lemma dedup_first_NoDup l : NoDup l → dedup_first l = l.
Proof.
  induction 1 as [|x l Hx Hl IH]; [done|]. simpl.
  by rewrite IH, filter_ne_not_elem.
Qed.

Lemma filter_not_in_nil (l : list str) :
  filter (λ w, w ∉ (@nil str)) l = l.
Proof.
  induction l as [|y l IH]; [done|].
  rewrite filter_cons_True by apply not_elem_of_nil. by rewrite IH.
Qed.

(** X10.  Membership and order of the related topics (lines 106-112).
    Every related topic is a non-empty section title among the first five or
    a word among the first six of the pool; the distinct non-empty titles
    among the first five sections all appear, first and in their order; and
    without sections the topics are the first six words of a pool without
    repetition. *)
Theorem related_of_members (sections words : list str) :
  (∀ x, x ∈ related_of sections words →
        (x ∈ take 5 sections ∧ x ≠ []) ∨ x ∈ take 6 words) ∧
  dedup_first (filter (λ s, truthy s) (take 5 sections))
    `prefix_of` related_of sections words ∧
  (NoDup words → related_of [] words = take 6 words).
Proof.
  rewrite !related_of_spec. unfold related_topics_spec. split_and!.
  - intros x [Hx|Hx%subseteq_take]%elem_of_app.
    + left. rewrite elem_of_dedup_first, list_elem_of_filter in Hx.
      destruct Hx as [Ht Hx]. split; [done|].
      by apply truthy_true, Is_true_true.
    + right. apply list_elem_of_filter in Hx as [_ Hx].
      by rewrite elem_of_dedup_first in Hx.
  - by apply prefix_app_r.
  - intros Hnd. simpl.
    rewrite dedup_first_NoDup by (eapply sublist_NoDup; [done|apply sublist_take]).
    by rewrite filter_not_in_nil, take_idemp.
Qed.

(** Without sections, the topics of a pool of seven words are its first
    six. *)
Lemma related_of_members_witness :
  related_of [] [py "Alpha"; py "Bravo"; py "Charlie"; py "Delta"; py "Echo";
                 py "Foxtrot"; py "Golf"]
  = [py "Alpha"; py "Bravo"; py "Charlie"; py "Delta"; py "Echo"; py "Foxtrot"].
Proof.
  destruct (related_of_members []
              [py "Alpha"; py "Bravo"; py "Charlie"; py "Delta"; py "Echo";
               py "Foxtrot"; py "Golf"])
    as (_ & _ & H).
  rewrite H; [reflexivity|].
  apply (bool_decide_unpack _). vm_compute. exact I.
Defined.

(** ** [scrape_wikipedia] *)

Lemma join_cons_nonempty sep p ps :
  p ≠ [] → ∃ rest, join sep (p :: ps) = p ++ rest ∧ join sep (p :: ps) ≠ [].
Proof.
  intros Hp. destruct ps as [|p' ps].
  - exists []. simpl. by rewrite app_nil_r.
  - exists (sep ++ join sep (p' :: ps)). split; [done|].
    destruct p as [|c p]; [done|]. done.
Qed.

(** X11.  A URL that does not pass the Wikipedia check is refused with
    [ValueError] before anything is fetched: this holds whatever the page
    behind it, both when the network location lacks the text wikipedia.org
    and when [urlparse] itself raises, whose exception is thus never seen.
    A URL that passes the check hands on the failure of the request. *)
Theorem scrape_wikipedia_guard (urlparse : str → result ParseResult)
    (fetch : str → result Page) (url : str) :
  ((∀ p, urlparse url = Ok p →
         contains (py "wikipedia.org") p.(netloc) = false) →
   scrape_wikipedia urlparse fetch url = Exc ValueError) ∧
  (∀ p e, urlparse url = Ok p →
          contains (py "wikipedia.org") p.(netloc) = true →
          fetch url = Exc e → scrape_wikipedia urlparse fetch url = Exc e).
Proof.
  unfold scrape_wikipedia, is_wikipedia_url. split.
  - intros Hno. destruct (urlparse url) as [p|e]; simpl; [|done].
    by rewrite Hno.
  - intros p e -> Hyes Hfetch. simpl. by rewrite Hyes, Hfetch.
Qed.

(** Two URLs that are refused without a fetch: another host, and a URL
    that [urlparse] rejects. *)
Lemma scrape_wikipedia_guard_witness :
  scrape_wikipedia urlparse_model (λ _, Ok sample_page)
    (py "https://example.com/wiki/Alan_Turing") = Exc ValueError ∧
  scrape_wikipedia urlparse_model (λ _, Exc IndexError)
    (py "http://[en.wikipedia.org/wiki/Alan_Turing") = Exc ValueError.
Proof.
  split.
  - apply (scrape_wikipedia_guard urlparse_model (λ _, Ok sample_page)).
    intros p Hp.
    replace (urlparse_model (py "https://example.com/wiki/Alan_Turing"))
      with (Ok {| scheme := py "https"; netloc := py "example.com";
                  rest := py "/wiki/Alan_Turing" |}) in Hp
      by (vm_compute; reflexivity).
    injection Hp as <-. vm_compute. reflexivity.
  - apply (scrape_wikipedia_guard urlparse_model (λ _, Exc IndexError)).
    intros p Hp.
    replace (urlparse_model (py "http://[en.wikipedia.org/wiki/Alan_Turing"))
      with (@Exc ParseResult ValueError) in Hp by (vm_compute; reflexivity).
    discriminate Hp.
Defined.

(** X12.  In every dictionary [scrape_wikipedia] returns, the summary is
    the beginning of the clean text; the two are empty together, namely when
    the page has no paragraph with text; and then the fallback generator,
    given these fields, has the title as its only sentence. *)
Theorem scrape_wikipedia_summary (U : unicode)
    (urlparse : str → result ParseResult)
    (fetch : str → result Page) (url : str) (sc : Scraped) :
  scrape_wikipedia urlparse fetch url = Ok sc →
  is_wikipedia_url urlparse url = Ok true ∧
  (∃ rest, sc.(scraped_clean_text) = sc.(scraped_summary) ++ rest) ∧
  (sc.(scraped_summary) = [] ↔ sc.(scraped_clean_text) = []) ∧
  (sc.(scraped_clean_text) = [] →
   sentences_of U sc.(scraped_title) sc.(scraped_summary) sc.(scraped_clean_text)
   = [sc.(scraped_title)]).
Proof.
  unfold scrape_wikipedia. generalize (newline ++ newline). intros sep.
  destruct (is_wikipedia_url urlparse url) as [[]|e]; [|done..].
  destruct (fetch url) as [page|e]; [|done].
  intros [= <-]. simpl. split; [done|].
  assert (Forall (λ p, p ≠ []) (kept_paragraphs (page_p_texts page))) as Hkept.
  { apply Forall_forall. intros p [Hp _]%list_elem_of_filter.
    by apply truthy_true, Is_true_true. }
  destruct (kept_paragraphs (page_p_texts page)) as [|p ps].
  { split_and!; [by exists []|done|done]. }
  apply Forall_cons in Hkept as [Hp _].
  destruct (join_cons_nonempty sep p ps Hp) as (rest & Hjoin & Hne).
  split_and!.
  - by exists rest.
  - split; [done|]. intros Hempty. by rewrite Hempty in Hne.
  - intros Hempty. by rewrite Hempty in Hne.
Qed.

(** The sample page, scraped: its first paragraph opens the clean text. *)
Lemma scrape_wikipedia_summary_witness :
  ∃ sc,
    scrape_wikipedia urlparse_model (λ _, Ok sample_page)
      (py "https://en.wikipedia.org/wiki/Alan_Turing") = Ok sc ∧
    sc.(scraped_summary) = py "Alan Turing was a mathematician." ∧
    ∃ rest, sc.(scraped_clean_text) = sc.(scraped_summary) ++ rest.
Proof.
  eexists. split; [vm_compute; reflexivity|]. split; [reflexivity|].
  eapply (scrape_wikipedia_summary latin1 urlparse_model (λ _, Ok sample_page)
            (py "https://en.wikipedia.org/wiki/Alan_Turing")).
  vm_compute. reflexivity.
Defined.

(** ** What randomness does not touch *)

Lemma Forall2_common {A B} (R1 R2 : A → B → Prop) (S : B → B → Prop)
    (l : list A) (k1 k2 : list B) :
  (∀ x y1 y2, R1 x y1 → R2 x y2 → S y1 y2) →
  Forall2 R1 l k1 → Forall2 R2 l k2 → Forall2 S k1 k2.
Proof.
  intros HS H1. revert k2. induction H1 as [|x y1 l k1 Hxy1 _ IH]; intros k2 H2.
  - apply Forall2_nil_inv_l in H2 as ->. constructor.
  - apply Forall2_cons_inv_l in H2 as (y2 & k2' & Hxy2 & H2 & ->).
    constructor; [by eapply HS|by apply IH].
Qed.

(** X13.  Two runs on the same input that both return, whatever their
    random numbers and whatever the order in which each of them finds the
    words of its pool (the order of a set changes from one process to the
    next), agree on the title, the summary, the number of questions and,
    question by question, the text and the explanation; their related topics
    both start with the section titles kept by line 107, and are the same
    when the two runs enumerate the pool alike.  The answers, the options
    and the difficulties may differ. *)
Theorem fallback_stable_parts (U : unicode)
    (list_of_set1 list_of_set2 : gset str → list str)
    title summary clean_text sections fuel1 r1 Q1 r1' fuel2 r2 Q2 r2' :
  _fallback_generate_from_text U list_of_set1 fuel1 title summary clean_text
    sections r1 = Ret (Q1, r1') →
  _fallback_generate_from_text U list_of_set2 fuel2 title summary clean_text
    sections r2 = Ret (Q2, r2') →
  Q1.(quiz_title) = Q2.(quiz_title) ∧
  Q1.(quiz_summary) = Q2.(quiz_summary) ∧
  length Q1.(quiz) = length Q2.(quiz) ∧
  Forall2 (λ q1 q2, q1.(question) = q2.(question) ∧
                    q1.(explanation) = q2.(explanation))
          Q1.(quiz) Q2.(quiz) ∧
  dedup_first (filter (λ s, truthy s) (take 5 sections))
    `prefix_of` Q1.(related_topics) ∧
  dedup_first (filter (λ s, truthy s) (take 5 sections))
    `prefix_of` Q2.(related_topics) ∧
  (list_of_set1 (word_set U (sentences_of U title summary clean_text))
   = list_of_set2 (word_set U (sentences_of U title summary clean_text)) →
   Q1.(related_topics) = Q2.(related_topics)).
Proof.
  intros (Ht1 & Hs1 & Hr1 & Hq1)%fallback_Ret (Ht2 & Hs2 & Hr2 & Hq2)%fallback_Ret.
  split_and!; try congruence.
  - apply Forall2_length in Hq1, Hq2. congruence.
  - eapply Forall2_common; [|exact Hq1|exact Hq2].
    intros i q1 q2 (s1 & Hsrc1 & Hfor1) (s2 & Hsrc2 & Hfor2). simpl in *.
    assert (s1 = s2) as -> by congruence.
    rewrite (qf_question _ _ _ _ _ _ Hfor1), (qf_question _ _ _ _ _ _ Hfor2).
    rewrite (qf_explanation _ _ _ _ _ _ Hfor1), (qf_explanation _ _ _ _ _ _ Hfor2).
    done.
  - rewrite Hr1, related_of_spec. by apply prefix_app_r.
  - rewrite Hr2, related_of_spec. by apply prefix_app_r.
  - intros Hsame. rewrite Hr1, Hr2. unfold word_pool. by rewrite Hsame.
Qed.

(** Two runs on the Einstein article with a section, on different tapes
    and with the pool in opposite orders: the related topics differ, the
    questions ask the same. *)
Lemma fallback_stable_parts_witness :
  ∃ Q1 r1' Q2 r2',
    _fallback_generate_from_text latin1 elements 30 (py "Albert Einstein") []
      einstein_text [py "History"] rng0 = Ret (Q1, r1') ∧
    _fallback_generate_from_text latin1 reversed 30 (py "Albert Einstein") []
      einstein_text [py "History"] rng1 = Ret (Q2, r2') ∧
    Q1.(related_topics) ≠ Q2.(related_topics) ∧
    Q1.(quiz_title) = Q2.(quiz_title) ∧
    Q1.(quiz_summary) = Q2.(quiz_summary) ∧
    length Q1.(quiz) = length Q2.(quiz) ∧
    Forall2 (λ q1 q2, q1.(question) = q2.(question) ∧
                      q1.(explanation) = q2.(explanation))
            Q1.(quiz) Q2.(quiz) ∧
    dedup_first (filter (λ s, truthy s) (take 5 [py "History"]))
      `prefix_of` Q1.(related_topics) ∧
    dedup_first (filter (λ s, truthy s) (take 5 [py "History"]))
      `prefix_of` Q2.(related_topics) ∧
    (elements (word_set latin1 (sentences_of latin1 (py "Albert Einstein") []
                                  einstein_text))
     = reversed (word_set latin1 (sentences_of latin1 (py "Albert Einstein") []
                                    einstein_text)) →
     Q1.(related_topics) = Q2.(related_topics)).
Proof.
  eexists _, _, _, _. split; [vm_compute; reflexivity|].
  split; [vm_compute; reflexivity|]. split; [discriminate|].
  eapply (fallback_stable_parts latin1 elements reversed (py "Albert Einstein") []
            einstein_text [py "History"] 30 rng0 _ _ 30 rng1);
    vm_compute; reflexivity.
Defined.
